(** * Hume EVI / Twilio Media Streams bridge: model of [hume_twilio_bridge.py]

    The bridge relays audio between a telephony WebSocket (Twilio Media
    Streams, mu-law 8 kHz) and a voice-AI WebSocket (Hume EVI, linear PCM
    48 kHz).  This file embeds the module's codec helpers, the two message
    handlers, the AI receive loop and the main loop [run] as Rocq functions
    and proves properties of them.

    Python values that come out of [json.loads] are modelled by [json].
    The Python standard library ([json], [base64], [audioop]) is not part of
    the repository: the handlers are written against the interface [PyLib],
    and every general theorem holds for an arbitrary implementation of it.
    Module [CPython] gives one executable implementation, used for concrete
    runs and for the codec round trip.

    A session is run against an explicit environment: the outcome of the
    connection attempt and of [accept], what each socket delivers, and for
    each delivery whether a send made while it is handled goes through.
    What the session does is recorded in a trace of effects.  Closing a
    socket, cancelling the task and writing a log record are taken not to
    fail. *)

From Stdlib Require Import ZArith Lia Ascii.
From Stdlib.Strings Require Import Byte.
From stdpp Require Import base option list strings.

Set Warnings "-register-all".
Local Open Scope Z_scope.

(** ** Python values read from the wire *)

(** A float is kept as the literal [json.loads] read it from: [FDec m e] is
    the decimal [m * 10^e], which Python rounds to binary64. *)
Inductive pyfloat :=
| FDec (m e : Z)
| FInf (negative : bool)
| FNaN.

(** [JNull] is Python's [None]; a [dict] keeps its items in insertion
    order. *)
Inductive json :=
| JNull
| JBool (b : bool)
| JInt (n : Z)
| JFloat (f : pyfloat)
| JStr (s : string)
| JArr (items : list json)
| JObj (items : list (string * json)).

Definition bytes := list byte.

(** [float(lit) == 0.0]: the literal is zero or rounds to zero, that is
    [|m| * 10^e <= 2^-1075] (half of the least subnormal, ties to even). *)
Definition float_is_zero (f : pyfloat) : bool :=
  match f with
  | FDec m e =>
      (m =? 0) || ((e <? 0) && (Z.abs m * 2 ^ 1075 <=? 10 ^ (- e)))
  | _ => false
  end.

(** Python truth value testing, [bool(v)]. *)
Definition truthy (v : json) : bool :=
  match v with
  | JNull => false
  | JBool b => b
  | JInt n => negb (n =? 0)
  | JFloat f => negb (float_is_zero f)
  | JStr s => negb (String.eqb s "")
  | JArr l => match l with [] => false | _ => true end
  | JObj d => match d with [] => false | _ => true end
  end.

(** [d[k]] as an optional value: the first item with key [k]. *)
Fixpoint dict_get (d : list (string * json)) (k : string) : option json :=
  match d with
  | [] => None
  | (k', v) :: rest => if String.eqb k' k then Some v else dict_get rest k
  end.

(** [v == s] for a Python value [v] and a [str] literal [s]. *)
Definition py_eq_str (v : json) (s : string) : bool :=
  match v with
  | JStr s' => String.eqb s' s
  | _ => false
  end.

(** ** The standard library, as the module calls it *)

(** [None] stands for the call raising.  The [audioop] calls are the three
    the module makes: sample width 2, one channel, no carried state. *)
Class PyLib := {
  (** [json.loads(text)] *)
  json_loads : string -> option json;
  (** [base64.b64decode(s)] for a [str] argument *)
  b64decode : string -> option bytes;
  (** [base64.b64encode(data).decode()] *)
  b64encode : bytes -> string;
  (** [audioop.ulaw2lin(fragment, 2)] *)
  ulaw2lin : bytes -> option bytes;
  (** [audioop.lin2ulaw(fragment, 2)] *)
  lin2ulaw : bytes -> option bytes;
  (** [audioop.ratecv(fragment, 2, 1, inrate, outrate, None)[0]] *)
  ratecv : bytes -> Z -> Z -> option bytes;
}.

(** ** Session state, effects and exceptions *)

(** The fields of [HumeTwilioBridge] set in [__init__].  [twilio_ws] is a
    fixed handle and is left out; [hume_ws] is [None] ([false]) until
    [connect_hume] stores the connection. *)
Record Bridge := mkBridge {
  config_id : string;
  hume_ws : bool;
  stream_sid : json;
  call_sid : json;
  _running : bool;
}.

(** [HumeTwilioBridge.__init__] *)
Definition init (config : string) : Bridge :=
  {| config_id := config; hume_ws := false; stream_sid := JNull;
     call_sid := JNull; _running := false |}.

Inductive level := DEBUG | INFO | ERROR.

(** The log records the module writes; the text of a caught exception is
    not kept. *)
Inductive record :=
| ConnectedToHume (config : string)
| SentSessionSettings
| FailedToConnect
| CallStarted (call : json)
| CallEnded (call : json)
| AudioConversionError
| UserSaid (content : json)
| SarahSaid (content : json)
| UserInterrupted
| HumeError (message code : json)
| HumeMessageType (msg_type : json)
| HumeConnectionClosed
| ErrorReceivingFromHume
| LoopError.

(** What the session does to the outside world, in program order.  A
    message is recorded as the value that is serialised onto the socket. *)
Inductive effect :=
| HumeConnect (url : string)
| HumeSend (message : json)
| HumeClose
| HumeTaskCancel
| TwilioAccept (ok : bool)
| TwilioSend (message : json)
| Log (lvl : level) (rec : record).

(** The exceptions that reach an [except] clause of the module.  All of
    them derive from [Exception]; only [TimeoutError] is told apart. *)
Inductive exn :=
| TimeoutError
| ConnectionClosed
| WebSocketDisconnect
| ConnectError
| JSONDecodeError
| AttributeError
| TypeError
| BinasciiError
| AudioopError.

(** ** A state, output and exception monad for the coroutines *)

Record res (A : Type) := Res {
  outcome : exn + A;
  post : Bridge;
  emitted : list effect;
}.
Arguments Res {A} _ _ _.
Arguments outcome {A} _.
Arguments post {A} _.
Arguments emitted {A} _.

Definition io (A : Type) : Type := Bridge -> res A.

Definition ret {A} (a : A) : io A := fun b => Res (inr a) b [].

Definition raise {A} (e : exn) : io A := fun b => Res (inl e) b [].

Definition bind {A B} (m : io A) (k : A -> io B) : io B := fun b =>
  match m b with
  | Res (inl e) b' out => Res (inl e) b' out
  | Res (inr a) b' out =>
      match k a b' with
      | Res o b'' out' => Res o b'' (out ++ out')
      end
  end.

(** [try: m  except Exception: h] *)
Definition try_except {A} (m : io A) (h : exn -> io A) : io A := fun b =>
  match m b with
  | Res (inl e) b' out =>
      match h e b' with
      | Res o b'' out' => Res o b'' (out ++ out')
      end
  | Res (inr a) b' out => Res (inr a) b' out
  end.

Definition emit (e : effect) : io unit := fun b => Res (inr tt) b [e].

(** [logging.basicConfig(level=logging.INFO)]: the module's logger writes
    the records at level INFO and above and drops the ones below. *)
Definition enabled (lvl : level) : bool :=
  match lvl with
  | DEBUG => false
  | INFO | ERROR => true
  end.

(** [logger.debug], [logger.info] and [logger.error] *)
Definition logger (lvl : level) (rec : record) : io unit :=
  if enabled lvl then emit (Log lvl rec) else ret tt.

Definition gets {A} (f : Bridge -> A) : io A := fun b => Res (inr (f b)) b [].

Definition modify (f : Bridge -> Bridge) : io unit :=
  fun b => Res (inr tt) (f b) [].

(** A library call that may raise [e]. *)
Definition call {A} (o : option A) (e : exn) : io A :=
  match o with
  | Some a => ret a
  | None => raise e
  end.

Declare Scope io_scope.
Delimit Scope io_scope with io.
Notation "x <- m ;; k" := (bind m (fun x => k))
  (at level 100, m at next level, right associativity) : io_scope.
Notation "m ;;; k" := (bind m (fun _ => k))
  (at level 100, right associativity) : io_scope.
Local Open Scope io_scope.

Definition set_hume_ws (v : bool) (b : Bridge) : Bridge :=
  {| config_id := config_id b; hume_ws := v; stream_sid := stream_sid b;
     call_sid := call_sid b; _running := _running b |}.

Definition set_stream_sid (v : json) (b : Bridge) : Bridge :=
  {| config_id := config_id b; hume_ws := hume_ws b; stream_sid := v;
     call_sid := call_sid b; _running := _running b |}.

Definition set_call_sid (v : json) (b : Bridge) : Bridge :=
  {| config_id := config_id b; hume_ws := hume_ws b;
     stream_sid := stream_sid b; call_sid := v; _running := _running b |}.

Definition set_running (v : bool) (b : Bridge) : Bridge :=
  {| config_id := config_id b; hume_ws := hume_ws b;
     stream_sid := stream_sid b; call_sid := call_sid b; _running := v |}.

(** [v.get(k)]: [AttributeError] unless [v] is a [dict]. *)
Definition py_get (v : json) (k : string) : io json :=
  match v with
  | JObj d => ret (default JNull (dict_get d k))
  | _ => raise AttributeError
  end.

(** [v.get(k, {})] *)
Definition py_get_or_empty (v : json) (k : string) : io json :=
  match v with
  | JObj d => ret (default (JObj []) (dict_get d k))
  | _ => raise AttributeError
  end.

(** [await self.hume_ws.send(json.dumps(message))]; [ok] tells whether the
    socket takes the message. *)
Definition hume_send (message : json) (ok : bool) : io unit :=
  if ok then emit (HumeSend message) else raise ConnectionClosed.

(** [await self.twilio_ws.send_json(message)] *)
Definition twilio_send_json (message : json) (ok : bool) : io unit :=
  if ok then emit (TwilioSend message) else raise WebSocketDisconnect.

(** ** The module *)

Definition HUME_WS_URL : string := "wss://api.hume.ai/v0/evi/chat".

(** The session-configuration message of [connect_hume]. *)
Definition session_settings : json :=
  JObj [("type", JStr "session_settings");
        ("audio", JObj [("encoding", JStr "linear16");
                        ("sample_rate", JInt 48000);
                        ("channels", JInt 1)])].

(** The [audio_input] message of [handle_twilio_message]. *)
Definition audio_message (data : string) : json :=
  JObj [("type", JStr "audio_input"); ("data", JStr data)].

(** The outbound media frame of [handle_hume_message]. *)
Definition twilio_message (sid : json) (payload : string) : json :=
  JObj [("event", JStr "media");
        ("streamSid", sid);
        ("media", JObj [("payload", JStr payload)])].

(** What the environment does at [websockets.connect] and at the first
    send that follows it. *)
Inductive connect_outcome :=
| ConnectFails
| ConnectOk (settings_sent : bool).

(** One outcome of [await wait_for(twilio_ws.receive_text(), timeout=30)];
    [send_ok] is the fate of a send made while the text is handled. *)
Inductive twilio_recv :=
| TwText (data : string) (send_ok : bool)
| TwTimeout
| TwDisconnect.

(** One outcome of advancing [async for message in self.hume_ws]. *)
Inductive hume_recv :=
| HuMessage (data : string) (send_ok : bool)
| HuClosedOK
| HuClosedError.

Inductive loop_ctl := Continue | Break.

Section Bridge.
Context `{PyLib}.

(** [ulaw_to_pcm] *)
Definition ulaw_to_pcm (ulaw_data : bytes) : option bytes :=
  ulaw2lin ulaw_data.

(** [pcm_to_ulaw] *)
Definition pcm_to_ulaw (pcm_data : bytes) : option bytes :=
  lin2ulaw pcm_data.

(** [resample] *)
Definition resample (data : bytes) (from_rate to_rate : Z) : option bytes :=
  ratecv data from_rate to_rate.

(** [base64.b64decode(v)] on a value read from the wire: only a [str] is
    accepted. *)
Definition py_b64decode (v : json) : io bytes :=
  match v with
  | JStr s => call (b64decode s) BinasciiError
  | _ => raise TypeError
  end.

(** [HumeTwilioBridge.connect_hume] *)
Definition connect_hume (env : connect_outcome) : io bool :=
  try_except
    (config <- gets config_id;;
     let url := HUME_WS_URL +:+ "?config_id=" +:+ config in
     match env with
     | ConnectFails => raise ConnectError
     | ConnectOk sent =>
         emit (HumeConnect url);;;
         modify (set_hume_ws true);;;
         logger INFO (ConnectedToHume config);;;
         hume_send session_settings sent;;;
         logger INFO SentSessionSettings;;;
         ret true
     end)
    (fun e => logger ERROR FailedToConnect;;; ret false).

(** [HumeTwilioBridge.handle_twilio_message] *)
Definition handle_twilio_message (message : json) (send_ok : bool) : io unit :=
  event <- py_get message "event";;
  if py_eq_str event "start" then
    sid <- py_get message "streamSid";;
    modify (set_stream_sid sid);;;
    start <- py_get_or_empty message "start";;
    csid <- py_get start "callSid";;
    modify (set_call_sid csid);;;
    logger INFO (CallStarted csid)
  else if py_eq_str event "media" then
    media <- py_get_or_empty message "media";;
    payload <- py_get media "payload";;
    ws <- gets hume_ws;;
    if truthy payload && ws then
      mulaw_data <- py_b64decode payload;;
      pcm_data <- call (ulaw_to_pcm mulaw_data) AudioopError;;
      pcm_data <- call (resample pcm_data 8000 48000) AudioopError;;
      hume_send (audio_message (b64encode pcm_data)) send_ok
    else ret tt
  else if py_eq_str event "stop" then
    csid <- gets call_sid;;
    logger INFO (CallEnded csid);;;
    modify (set_running false)
  else ret tt.

(** [HumeTwilioBridge.handle_hume_message] *)
Definition handle_hume_message (message : json) (send_ok : bool) : io unit :=
  msg_type <- py_get message "type";;
  if py_eq_str msg_type "audio_output" then
    audio_b64 <- py_get message "data";;
    sid <- gets stream_sid;;
    if truthy audio_b64 && truthy sid then
      try_except
        (pcm_data <- py_b64decode audio_b64;;
         pcm_data <- call (resample pcm_data 48000 8000) AudioopError;;
         mulaw_data <- call (pcm_to_ulaw pcm_data) AudioopError;;
         sid <- gets stream_sid;;
         twilio_send_json (twilio_message sid (b64encode mulaw_data)) send_ok)
        (fun e => logger ERROR AudioConversionError)
    else ret tt
  else if py_eq_str msg_type "user_message" then
    m <- py_get_or_empty message "message";;
    content <- py_get m "content";;
    logger INFO (UserSaid content)
  else if py_eq_str msg_type "assistant_message" then
    m <- py_get_or_empty message "message";;
    content <- py_get m "content";;
    logger INFO (SarahSaid content)
  else if py_eq_str msg_type "user_interruption" then
    logger INFO UserInterrupted
  else if py_eq_str msg_type "error" then
    m <- py_get message "message";;
    code <- py_get message "code";;
    logger ERROR (HumeError m code)
  else
    logger DEBUG (HumeMessageType msg_type).

(** One turn of the loop of [receive_hume_messages] under its [try]: [true]
    when the loop goes on to the next message, [false] when the coroutine
    ends. *)
Definition receive_hume_iteration (r : hume_recv) : io bool :=
  try_except
    (match r with
     | HuMessage data send_ok =>
         message <- call (json_loads data) JSONDecodeError;;
         handle_hume_message message send_ok;;;
         ret true
     | HuClosedOK => ret false
     | HuClosedError => raise ConnectionClosed
     end)
    (fun e =>
       match e with
       | ConnectionClosed => logger INFO HumeConnectionClosed;;; ret false
       | _ => logger ERROR ErrorReceivingFromHume;;; ret false
       end).

(** [HumeTwilioBridge.receive_hume_messages], run on its own over what the
    AI socket delivers. *)
Fixpoint receive_hume_messages (inbox : list hume_recv) : io unit :=
  match inbox with
  | [] => ret tt
  | r :: rest =>
      continue <- receive_hume_iteration r;;
      if continue : bool then receive_hume_messages rest else ret tt
  end.

(** The body of the [while self._running] loop of [run]: the inner [try]
    with its two [except] clauses. *)
Definition twilio_iteration (r : twilio_recv) : io loop_ctl :=
  try_except
    (match r with
     | TwText data send_ok =>
         message <- call (json_loads data) JSONDecodeError;;
         handle_twilio_message message send_ok;;;
         ret Continue
     | TwTimeout => raise TimeoutError
     | TwDisconnect => raise WebSocketDisconnect
     end)
    (fun e =>
       match e with
       | TimeoutError => ret Continue
       | _ => logger ERROR LoopError;;; ret Break
       end).

(** The [finally] block of [run]. *)
Definition teardown : io unit :=
  emit HumeTaskCancel;;;
  ws <- gets hume_ws;;
  if ws : bool then emit HumeClose else ret tt.

(** *** The main loop, with the AI receive task interleaved *)

(** [hume_task] of [run]. *)
Inductive task :=
| NotCreated
| TaskRunning
| TaskFinished
| TaskCancelled.

(** Where [run] stands: awaiting [accept], in its loop, returned, or left
    by an exception after the [finally] block. *)
Inductive status :=
| Accepting
| Looping
| Returned
| Propagated (e : exn).

(** A session: the bridge object, the AI receive task, the control point
    of [run] and everything done so far. *)
Record session := mkSession {
  bridge : Bridge;
  hume_task : task;
  state : status;
  trace : list effect;
}.

(** What the two sockets deliver while [run] is in its loop, in the order
    the event loop hands it to the two coroutines.  Each handler touches
    the bridge's fields before its only [await] (the send), so one
    delivery is one atomic step. *)
Inductive event :=
| FromTwilio (r : twilio_recv)
| FromHume (r : hume_recv).

(** One session, as the environment plays it: the connection attempt, the
    AI messages handled while [accept] is pending, the result of [accept],
    and the deliveries after it. *)
Record scenario := mkScenario {
  connect : connect_outcome;
  early : list hume_recv;
  accept_ok : bool;
  events : list event;
}.

(** The AI receive task takes one delivery, if it is still running. *)
Definition hume_step (s : session) (r : hume_recv) : session :=
  match hume_task s with
  | TaskRunning =>
      let res := receive_hume_iteration r (bridge s) in
      {| bridge := post res;
         hume_task := match outcome res with
                      | inr true => TaskRunning
                      | _ => TaskFinished
                      end;
         state := state s;
         trace := trace s ++ emitted res |}
  | _ => s
  end.

(** Leaving the outer [try] of [run] with [st]: the [finally] block runs,
    and cancelling the task stops it if it has not ended yet. *)
Definition finish (st : status) (s : session) : session :=
  let res := teardown (bridge s) in
  {| bridge := post res;
     hume_task := match hume_task s with
                  | TaskRunning => TaskCancelled
                  | t => t
                  end;
     state := st;
     trace := trace s ++ emitted res |}.

(** The test of [while self._running]. *)
Definition loop_test (s : session) : session :=
  if _running (bridge s) then s else finish Returned s.

(** The telephony loop takes one delivery. *)
Definition twilio_step (s : session) (r : twilio_recv) : session :=
  let res := twilio_iteration r (bridge s) in
  let s' := {| bridge := post res; hume_task := hume_task s;
               state := state s; trace := trace s ++ emitted res |} in
  match outcome res with
  | inr Continue => loop_test s'
  | inr Break => finish Returned s'
  | inl e => finish (Propagated e) s'
  end.

(** One delivery while [run] is in its loop; once [run] has left the loop
    nothing is taken any more. *)
Definition step (s : session) (e : event) : session :=
  match state s with
  | Looping =>
      match e with
      | FromTwilio r => twilio_step s r
      | FromHume r => hume_step s r
      end
  | _ => s
  end.

(** [HumeTwilioBridge.run] on a bridge made by [__init__].  A session whose
    deliveries run out while it is in its loop is left there, waiting. *)
Definition run (config : string) (env : scenario) : session :=
  let res := connect_hume (connect env) (init config) in
  match outcome res with
  | inr true =>
      let s1 := {| bridge := set_running true (post res);
                   hume_task := TaskRunning;
                   state := Accepting;
                   trace := emitted res |} in
      let s2 := fold_left hume_step (early env) s1 in
      let s3 := {| bridge := bridge s2; hume_task := hume_task s2;
                   state := Looping;
                   trace := trace s2 ++ [TwilioAccept (accept_ok env)] |} in
      if accept_ok env
      then fold_left step (events env) (loop_test s3)
      else finish (Propagated WebSocketDisconnect) s3
  | _ =>
      {| bridge := post res; hume_task := NotCreated; state := Returned;
         trace := emitted res |}
  end.

End Bridge.

(** *** Reading a trace *)

(** The messages sent to the AI service, oldest first. *)
Definition hume_frames (t : list effect) : list json :=
  omap (fun e => match e with HumeSend m => Some m | _ => None end) t.

(** The messages sent to the telephony side, oldest first. *)
Definition twilio_frames (t : list effect) : list json :=
  omap (fun e => match e with TwilioSend m => Some m | _ => None end) t.

(** The trace without its log records. *)
Definition wire (t : list effect) : list effect :=
  List.filter (fun e => match e with Log _ _ => false | _ => true end) t.

(** ** An executable standard library

    The functions below follow CPython 3.11: [Modules/audioop.c] for the
    three [audioop] calls, [Modules/binascii.c] for base64 and the scanner
    of [Modules/_json.c] for [json.loads].  Native byte order is little
    endian. *)
Module CPython.

Definition byte_val (b : byte) : Z := Z.of_N (Byte.to_N b).

(** The byte with value [z mod 256]. *)
Definition byte_of (z : Z) : byte :=
  default x00 (Byte.of_N (Z.to_N (z mod 256))).

(** *** audioop, sample width 2 *)

Definition GETINT16 (lo hi : byte) : Z :=
  let u := byte_val lo + 256 * byte_val hi in
  if u <? 32768 then u else u - 65536.

Definition SETINT16 (v : Z) : bytes := [byte_of v; byte_of (Z.shiftr v 8)].

Definition GETSAMPLE32 (lo hi : byte) : Z := Z.shiftl (GETINT16 lo hi) 16.

Definition SETSAMPLE32 (v : Z) : bytes := SETINT16 (Z.shiftr v 16).

Definition BIAS : Z := 0x84.
Definition CLIP : Z := 32635.

(** The table [_st_ulaw2linear16], by the formula that generates it. *)
Definition st_ulaw2linear16 (u_val : Z) : Z :=
  let u := Z.lxor u_val 0xFF in
  let t := Z.shiftl (Z.shiftl (Z.land u 0xF) 3 + BIAS)
                    (Z.shiftr (Z.land u 0x70) 4) in
  if Z.land u 0x80 =? 0 then t - BIAS else BIAS - t.

Definition seg_uend : list Z :=
  [0x3F; 0x7F; 0xFF; 0x1FF; 0x3FF; 0x7FF; 0xFFF; 0x1FFF].

Fixpoint search (val : Z) (table : list Z) (i : Z) : Z :=
  match table with
  | [] => i
  | e :: rest => if val <=? e then i else search val rest (i + 1)
  end.

Definition st_14linear2ulaw (pcm_val : Z) : Z :=
  let mask := if pcm_val <? 0 then 0x7F else 0xFF in
  let pcm_val := if pcm_val <? 0 then - pcm_val else pcm_val in
  let pcm_val := if CLIP <? pcm_val then CLIP else pcm_val in
  let pcm_val := pcm_val + Z.shiftr BIAS 2 in
  let seg := search pcm_val seg_uend 0 in
  if 8 <=? seg then Z.lxor 0x7F mask
  else Z.lxor (Z.lor (Z.shiftl seg 4)
                     (Z.land (Z.shiftr pcm_val (seg + 1)) 0xF)) mask.

(** [audioop.ulaw2lin(fragment, 2)] *)
Definition ulaw2lin (fragment : bytes) : option bytes :=
  Some (flat_map
          (fun c => SETSAMPLE32 (Z.shiftl (st_ulaw2linear16 (byte_val c)) 16))
          fragment).

(** [audioop.lin2ulaw(fragment, 2)]; a fragment of odd length is "not a
    whole number of frames". *)
Fixpoint lin2ulaw (fragment : bytes) : option bytes :=
  match fragment with
  | [] => Some []
  | lo :: hi :: rest =>
      let val := GETSAMPLE32 lo hi in
      cons (byte_of (st_14linear2ulaw (Z.shiftr val 18))) <$> lin2ulaw rest
  | [_] => None
  end.

(** The loop [while (d >= 0)] of [ratecv]: output frames interpolated
    between the last two input samples.  The C code computes [cur_o] in
    doubles and truncates; for reduced rates below 2^21 every intermediate
    value is below 2^53, so this is the truncating integer quotient. *)
Fixpoint ratecv_write (n : nat) (inrate outrate prev_i cur_i d : Z)
  : bytes * Z :=
  match n with
  | O => ([], d)
  | S n' =>
      if d <? 0 then ([], d)
      else
        let cur_o := Z.quot (prev_i * d + cur_i * (outrate - d)) outrate in
        let '(out, d') :=
          ratecv_write n' inrate outrate prev_i cur_i (d - inrate) in
        (SETSAMPLE32 cur_o ++ out, d')
  end.

(** The loop [while (d < 0)] of [ratecv], one input frame a turn, with the
    write loop that follows each turn ([weightA = 1], [weightB = 0] leave
    the sample as read). *)
Fixpoint ratecv_read (fragment : bytes) (inrate outrate prev_i cur_i d : Z)
  : option bytes :=
  match fragment with
  | [] => Some []
  | lo :: hi :: rest =>
      let prev_i := cur_i in
      let cur_i := GETSAMPLE32 lo hi in
      let d := d + outrate in
      let '(out, d) :=
        ratecv_write (Z.to_nat (d / inrate) + 1)
                     inrate outrate prev_i cur_i d in
      app out <$> ratecv_read rest inrate outrate prev_i cur_i d
  | [_] => None
  end.

(** [audioop.ratecv(fragment, 2, 1, inrate, outrate, None)[0]] *)
Definition ratecv (fragment : bytes) (inrate outrate : Z) : option bytes :=
  if (inrate <=? 0) || (outrate <=? 0) then None
  else
    let g := Z.gcd inrate outrate in
    let inrate := inrate / g in
    let outrate := outrate / g in
    ratecv_read fragment inrate outrate 0 0 (- outrate).

(** *** base64 *)

Definition code (c : ascii) : Z := Z.of_N (Ascii.N_of_ascii c).

Definition chr (z : Z) : ascii := Ascii.ascii_of_N (Z.to_N z).

(** [table_a2b_base64]: the value of an alphabet character. *)
Definition table_a2b_base64 (c : ascii) : option Z :=
  let n := code c in
  if (65 <=? n) && (n <=? 90) then Some (n - 65)
  else if (97 <=? n) && (n <=? 122) then Some (n - 71)
  else if (48 <=? n) && (n <=? 57) then Some (n + 4)
  else if n =? 43 then Some 62
  else if n =? 47 then Some 63
  else None.

(** [binascii.a2b_base64] without [strict_mode]: characters outside the
    alphabet are skipped, a pad sequence that completes a quad ends the
    data, and an incomplete quad at the end is an error. *)
Fixpoint a2b_base64 (s : string) (quad_pos leftchar pads : Z) : option bytes :=
  match s with
  | EmptyString => if quad_pos =? 0 then Some [] else None
  | String c rest =>
      if code c =? 61 then
        if 2 <=? quad_pos then
          if 4 <=? quad_pos + (pads + 1) then Some []
          else a2b_base64 rest quad_pos leftchar (pads + 1)
        else a2b_base64 rest quad_pos leftchar pads
      else
        match table_a2b_base64 c with
        | None => a2b_base64 rest quad_pos leftchar pads
        | Some this_ch =>
            if quad_pos =? 0 then a2b_base64 rest 1 this_ch 0
            else if quad_pos =? 1 then
              cons (byte_of (Z.lor (Z.shiftl leftchar 2) (Z.shiftr this_ch 4)))
                <$> a2b_base64 rest 2 (Z.land this_ch 0xf) 0
            else if quad_pos =? 2 then
              cons (byte_of (Z.lor (Z.shiftl leftchar 4) (Z.shiftr this_ch 2)))
                <$> a2b_base64 rest 3 (Z.land this_ch 0x3) 0
            else
              cons (byte_of (Z.lor (Z.shiftl leftchar 6) this_ch))
                <$> a2b_base64 rest 0 0 0
        end
  end.

Fixpoint is_ascii (s : string) : bool :=
  match s with
  | EmptyString => true
  | String c rest => (code c <? 128) && is_ascii rest
  end.

(** [base64.b64decode(s)] for a [str]: only ASCII is accepted. *)
Definition b64decode (s : string) : option bytes :=
  if is_ascii s then a2b_base64 s 0 0 0 else None.

Definition table_b2a_base64 : string :=
  "ABCDEFGHIJKLMNOPQRSTUVWXYZabcdefghijklmnopqrstuvwxyz0123456789+/".

Definition b2a (v : Z) : ascii :=
  default "="%char (String.get (Z.to_nat v) table_b2a_base64).

(** [base64.b64encode(data).decode()] *)
Fixpoint b64encode (data : bytes) : string :=
  match data with
  | [] => ""
  | [a] =>
      let a := byte_val a in
      String (b2a (Z.shiftr a 2))
        (String (b2a (Z.shiftl (Z.land a 0x3) 4)) "==")
  | [a; b] =>
      let a := byte_val a in
      let b := byte_val b in
      String (b2a (Z.shiftr a 2))
        (String (b2a (Z.lor (Z.shiftl (Z.land a 0x3) 4) (Z.shiftr b 4)))
           (String (b2a (Z.shiftl (Z.land b 0xf) 2)) "="))
  | a :: b :: c :: rest =>
      let a := byte_val a in
      let b := byte_val b in
      let c := byte_val c in
      String (b2a (Z.shiftr a 2))
        (String (b2a (Z.lor (Z.shiftl (Z.land a 0x3) 4) (Z.shiftr b 4)))
           (String (b2a (Z.lor (Z.shiftl (Z.land b 0xf) 2) (Z.shiftr c 6)))
              (String (b2a (Z.land c 0x3f)) (b64encode rest))))
  end.

(** *** json.loads

    A Python [str] is held as its UTF-8 bytes.  The limit on the digits of
    an [int] and the recursion limit are not modelled. *)

Fixpoint skip_ws (s : string) : string :=
  match s with
  | String c rest =>
      let n := code c in
      if (n =? 32) || (n =? 9) || (n =? 10) || (n =? 13)
      then skip_ws rest else s
  | EmptyString => s
  end.

Definition is_digit (c : ascii) : bool := (48 <=? code c) && (code c <=? 57).

Definition hexval (c : ascii) : option Z :=
  let n := code c in
  if (48 <=? n) && (n <=? 57) then Some (n - 48)
  else if (97 <=? n) && (n <=? 102) then Some (n - 87)
  else if (65 <=? n) && (n <=? 70) then Some (n - 55)
  else None.

Definition hex4 (a b c d : ascii) : option Z :=
  a ← hexval a; b ← hexval b; c ← hexval c; d ← hexval d;
  Some (((a * 16 + b) * 16 + c) * 16 + d).

(** The UTF-8 bytes of a code point (a lone surrogate gets the three bytes
    of its value). *)
Definition utf8 (cp : Z) : string :=
  if cp <? 0x80 then String (chr cp) ""
  else if cp <? 0x800 then
    String (chr (Z.lor 0xC0 (Z.shiftr cp 6)))
      (String (chr (Z.lor 0x80 (Z.land cp 0x3F))) "")
  else if cp <? 0x10000 then
    String (chr (Z.lor 0xE0 (Z.shiftr cp 12)))
      (String (chr (Z.lor 0x80 (Z.land (Z.shiftr cp 6) 0x3F)))
         (String (chr (Z.lor 0x80 (Z.land cp 0x3F))) ""))
  else
    String (chr (Z.lor 0xF0 (Z.shiftr cp 18)))
      (String (chr (Z.lor 0x80 (Z.land (Z.shiftr cp 12) 0x3F)))
         (String (chr (Z.lor 0x80 (Z.land (Z.shiftr cp 6) 0x3F)))
            (String (chr (Z.lor 0x80 (Z.land cp 0x3F))) ""))).

Definition escape (c : ascii) : option ascii :=
  let n := code c in
  if (n =? 34) || (n =? 92) || (n =? 47) then Some c
  else if n =? 98 then Some (chr 8)
  else if n =? 102 then Some (chr 12)
  else if n =? 110 then Some (chr 10)
  else if n =? 114 then Some (chr 13)
  else if n =? 116 then Some (chr 9)
  else None.

(** The low surrogate escape that may follow a high surrogate. *)
Definition low_surrogate (s : string) : option (Z * string) :=
  match s with
  | String b (String u (String h1 (String h2 (String h3 (String h4 rest))))) =>
      if (code b =? 92) && (code u =? 117) then
        c2 ← hex4 h1 h2 h3 h4;
        if (0xDC00 <=? c2) && (c2 <=? 0xDFFF) then Some (c2, rest) else None
      else None
  | _ => None
  end.

(** [scanstring] in strict mode, from the character after the opening
    quote: the content and what follows the closing quote. *)
Fixpoint scanstring (s : string) : option (string * string) :=
  match s with
  | EmptyString => None
  | String c rest =>
      if code c =? 34 then Some ("", rest)
      else if code c =? 92 then
        match rest with
        | EmptyString => None
        | String e rest1 =>
            if code e =? 117 then
              match rest1 with
              | String h1 (String h2 (String h3 (String h4 rest2))) =>
                  cp ← hex4 h1 h2 h3 h4;
                  match
                    (if (0xD800 <=? cp) && (cp <=? 0xDBFF)
                     then low_surrogate rest2 else None),
                    rest2
                  with
                  | Some (c2, _),
                    String _ (String _ (String _ (String _
                      (String _ (String _ rest3))))) =>
                      let joined :=
                        0x10000 + Z.lor (Z.shiftl (Z.land cp 0x3FF) 10)
                                        (Z.land c2 0x3FF) in
                      '(str, after) ← scanstring rest3;
                      Some (utf8 joined +:+ str, after)
                  | _, _ =>
                      '(str, after) ← scanstring rest2;
                      Some (utf8 cp +:+ str, after)
                  end
              | _ => None
              end
            else
              ch ← escape e;
              '(str, after) ← scanstring rest1;
              Some (String ch str, after)
        end
      else if code c <=? 0x1f then None
      else
        '(str, after) ← scanstring rest;
        Some (String c str, after)
  end.

Fixpoint scan_digits (s : string) (acc count : Z) : Z * Z * string :=
  match s with
  | String c rest =>
      if is_digit c then scan_digits rest (acc * 10 + (code c - 48)) (count + 1)
      else (acc, count, s)
  | EmptyString => (acc, count, s)
  end.

(** [_match_number]: an optional minus sign, then a zero or a run of
    digits that does not start with zero, then an optional fraction (a dot
    and digits) and an optional exponent (e or E, an optional sign,
    digits).  A fraction or an exponent makes a [float]. *)
Definition match_number (s : string) : option (json * string) :=
  let '(sign, s1) :=
    match s with
    | String c rest => if code c =? 45 then (-1, rest) else (1, s)
    | EmptyString => (1, s)
    end in
  match s1 with
  | String c rest =>
      if is_digit c then
        let '(int, _, s2) :=
          if code c =? 48 then (0, 1, rest) else scan_digits s1 0 0 in
        let '(frac, fcount, s3) :=
          match s2 with
          | String dot (String d rest') =>
              if (code dot =? 46) && is_digit d
              then scan_digits (String d rest') 0 0 else (0, 0, s2)
          | _ => (0, 0, s2)
          end in
        let '(exp, ecount, s4) :=
          match s3 with
          | String e rest' =>
              if (code e =? 101) || (code e =? 69) then
                let '(esign, s') :=
                  match rest' with
                  | String sg rest'' =>
                      if code sg =? 45 then (-1, rest'')
                      else if code sg =? 43 then (1, rest'')
                      else (1, rest')
                  | EmptyString => (1, rest')
                  end in
                let '(ev, n, s'') := scan_digits s' 0 0 in
                if 0 <? n then (esign * ev, n, s'') else (0, 0, s3)
              else (0, 0, s3)
          | EmptyString => (0, 0, s3)
          end in
        if (0 <? fcount) || (0 <? ecount)
        then Some (JFloat (FDec (sign * (int * 10 ^ fcount + frac))
                                (exp - fcount)), s4)
        else Some (JInt (sign * int), s4)
      else None
  | EmptyString => None
  end.

(** The literal [lit] at the head of [s]. *)
Fixpoint literal (lit s : string) : option string :=
  match lit, s with
  | EmptyString, _ => Some s
  | String a lit', String b s' =>
      if Ascii.eqb a b then literal lit' s' else None
  | _, _ => None
  end.

Definition constants : list (string * json) :=
  [("null", JNull); ("true", JBool true); ("false", JBool false);
   ("NaN", JFloat FNaN); ("Infinity", JFloat (FInf false));
   ("-Infinity", JFloat (FInf true))].

Fixpoint match_constant (table : list (string * json)) (s : string)
  : option (json * string) :=
  match table with
  | [] => None
  | (lit, v) :: table' =>
      match literal lit s with
      | Some rest => Some (v, rest)
      | None => match_constant table' s
      end
  end.

(** [d[k] = v] on a [dict]: a key that is present keeps its place. *)
Fixpoint dict_set (d : list (string * json)) (k : string) (v : json)
  : list (string * json) :=
  match d with
  | [] => [(k, v)]
  | (k', v') :: rest =>
      if String.eqb k' k then (k, v) :: rest else (k', v') :: dict_set rest k v
  end.

(** [scan_once] with the array and object loops; [fuel] bounds the
    nesting. *)
Fixpoint scan_once (fuel : nat) (s : string) : option (json * string) :=
  match fuel with
  | O => None
  | S fuel =>
      match s with
      | EmptyString => None
      | String c rest =>
          if code c =? 34 then
            '(str, after) ← scanstring rest; Some (JStr str, after)
          else if code c =? 123 then
            match skip_ws rest with
            | String c' after =>
                if code c' =? 125 then Some (JObj [], after)
                else
                  '(items, after) ← parse_object fuel (skip_ws rest);
                  Some (JObj (fold_left (fun d kv => dict_set d kv.1 kv.2)
                                        items []), after)
            | EmptyString => None
            end
          else if code c =? 91 then
            match skip_ws rest with
            | String c' after =>
                if code c' =? 93 then Some (JArr [], after)
                else
                  '(items, after) ← parse_array fuel (skip_ws rest);
                  Some (JArr items, after)
            | EmptyString => None
            end
          else
            match match_constant constants s with
            | Some r => Some r
            | None => match_number s
            end
      end
  end
with parse_array (fuel : nat) (s : string) : option (list json * string) :=
  match fuel with
  | O => None
  | S fuel =>
      '(val, after) ← scan_once fuel s;
      match skip_ws after with
      | String c after' =>
          if code c =? 93 then Some ([val], after')
          else if code c =? 44 then
            '(vals, after'') ← parse_array fuel (skip_ws after');
            Some (val :: vals, after'')
          else None
      | EmptyString => None
      end
  end
with parse_object (fuel : nat) (s : string)
  : option (list (string * json) * string) :=
  match fuel with
  | O => None
  | S fuel =>
      match s with
      | String q rest =>
          if code q =? 34 then
            '(key, after) ← scanstring rest;
            match skip_ws after with
            | String colon after1 =>
                if code colon =? 58 then
                  '(val, after2) ← scan_once fuel (skip_ws after1);
                  match skip_ws after2 with
                  | String c after3 =>
                      if code c =? 125 then Some ([(key, val)], after3)
                      else if code c =? 44 then
                        '(items, after4) ← parse_object fuel (skip_ws after3);
                        Some ((key, val) :: items, after4)
                      else None
                  | EmptyString => None
                  end
                else None
            | EmptyString => None
            end
          else None
      | EmptyString => None
      end
  end.

(** [json.loads(text)]: one value between optional whitespace, and
    nothing after it. *)
Definition json_loads (text : string) : option json :=
  '(obj, after) ← scan_once (2 * String.length text + 2) (skip_ws text);
  match skip_ws after with
  | EmptyString => Some obj
  | _ => None
  end.

(** The library as one implementation of [PyLib]. *)
Definition lib : PyLib :=
  Build_PyLib json_loads b64decode b64encode ulaw2lin lin2ulaw ratecv.

End CPython.

(** ** The codec pipelines of the two handlers *)

Section Pipelines.
Context `{PyLib}.

(** Telephony to AI: mu-law 8 kHz to linear PCM 48 kHz, as
    [handle_twilio_message] chains the helpers. *)
Definition telephony_to_ai (mulaw_data : bytes) : option bytes :=
  pcm_data ← ulaw_to_pcm mulaw_data; resample pcm_data 8000 48000.

(** AI to telephony: linear PCM 48 kHz to mu-law 8 kHz, as
    [handle_hume_message] chains the helpers. *)
Definition ai_to_telephony (pcm_data : bytes) : option bytes :=
  pcm_data ← resample pcm_data 48000 8000; pcm_to_ulaw pcm_data.

(** There and back. *)
Definition round_trip (mulaw_data : bytes) : option bytes :=
  telephony_to_ai mulaw_data ≫= ai_to_telephony.

End Pipelines.

(** What a mu-law byte becomes when it is decoded and encoded again: the
    two codes of zero, [0x7f] and [0xff], both come back as [0xff]. *)
Definition requantise (u : byte) : byte :=
  match u with
  | x7f => xff
  | _ => u
  end.

(** ** The shape of a resampled buffer *)

Module Resampled.
Import CPython.

(** The 32-bit sample of a mu-law byte and its PCM frame. *)
Definition sample32 (u : byte) : Z :=
  Z.shiftl (st_ulaw2linear16 (byte_val u)) 16.

Definition frame (u : byte) : bytes := SETSAMPLE32 (sample32 u).

(** The frame [ratecv] writes at phase [d] between samples [p] and [c]. *)
Definition interp (outrate p c d : Z) : bytes :=
  SETSAMPLE32 (Z.quot (p * d + c * (outrate - d)) outrate).

(** What 8000 to 48000 writes for the samples after the first one. *)
Fixpoint up_rest (c : Z) (us : list byte) : bytes :=
  match us with
  | [] => []
  | u :: rest =>
      interp 6 c (sample32 u) 5 ++ interp 6 c (sample32 u) 4 ++
      interp 6 c (sample32 u) 3 ++ interp 6 c (sample32 u) 2 ++
      interp 6 c (sample32 u) 1 ++ frame u ++ up_rest (sample32 u) rest
  end.

End Resampled.

(** ** Reading messages, scenarios and traces *)

(** [message.get(k)] read off a value: [None] when [k] is absent or when
    [message] is not a [dict]. *)
Definition field (message : json) (k : string) : json :=
  match message with
  | JObj d => default JNull (dict_get d k)
  | _ => JNull
  end.

Definition is_start (message : json) : bool :=
  py_eq_str (field message "event") "start".

Definition is_media (message : json) : bool :=
  py_eq_str (field message "event") "media".

Definition is_audio_output (message : json) : bool :=
  py_eq_str (field message "type") "audio_output".

Definition is_session_settings (message : json) : bool :=
  py_eq_str (field message "type") "session_settings".

Definition is_audio_input (message : json) : bool :=
  py_eq_str (field message "type") "audio_input".

(** [outputs] are made from inputs taken in their order from [inputs],
    each output from one input of its own, the inputs in between
    dropped. *)
Definition in_order {A B} (R : A -> B -> Prop)
    (inputs : list A) (outputs : list B) : Prop :=
  exists forwarded,
    forwarded `sublist_of` inputs /\ Forall2 R forwarded outputs.

(** The stream identifier an outbound telephony frame carries. *)
Definition frame_sid (frame : json) : json := field frame "streamSid".

Definition is_timeout (e : event) : bool :=
  match e with
  | FromTwilio TwTimeout => true
  | _ => false
  end.

(** The scenario with the idle timeouts of the telephony loop taken out. *)
Definition without_timeouts (env : scenario) : scenario :=
  {| connect := connect env; early := early env; accept_ok := accept_ok env;
     events := List.filter (fun e => negb (is_timeout e)) (events env) |}.

Section Reading.
Context `{PyLib}.

(** The payload of the telephony frame made from the [data] of an
    [audio_output] message, when every conversion succeeds. *)
Definition to_twilio_payload (data : json) : option string :=
  match data with
  | JStr s =>
      mulaw_data ← b64decode s ≫= ai_to_telephony;
      Some (b64encode mulaw_data)
  | _ => None
  end.

(** The [data] of the [audio_input] message made from the payload of a
    telephony media event, when every conversion succeeds. *)
Definition to_hume_data (payload : json) : option string :=
  match payload with
  | JStr s =>
      pcm_data ← b64decode s ≫= telephony_to_ai;
      Some (b64encode pcm_data)
  | _ => None
  end.

(** What handling an [audio_output] message with [data] does while the
    stream identifier is [sid]. *)
Definition audio_output_effects (sid data : json) (send_ok : bool)
  : list effect :=
  if truthy data && truthy sid then
    match to_twilio_payload data with
    | Some payload =>
        if send_ok then [TwilioSend (twilio_message sid payload)]
        else [Log ERROR AudioConversionError]
    | None => [Log ERROR AudioConversionError]
    end
  else [].

(** What handling a telephony media event with [payload] does while
    [hume_ws] is [ws]. *)
Definition media_effects (ws : bool) (payload : json) (send_ok : bool)
  : list effect :=
  if truthy payload && ws then
    match to_hume_data payload with
    | Some data => if send_ok then [HumeSend (audio_message data)] else []
    | None => []
    end
  else [].

(** The audio an AI delivery carries: the [data] of an [audio_output]
    message. *)
Definition hume_audio (r : hume_recv) : option json :=
  match r with
  | HuMessage text _ =>
      match json_loads text with
      | Some message =>
          if is_audio_output message then Some (field message "data")
          else None
      | None => None
      end
  | _ => None
  end.

(** The audio a telephony delivery carries: the payload of a media
    event. *)
Definition twilio_audio (r : twilio_recv) : option json :=
  match r with
  | TwText text _ =>
      match json_loads text with
      | Some message =>
          if is_media message
          then Some (field (field message "media") "payload")
          else None
      | None => None
      end
  | _ => None
  end.

Definition from_hume (e : event) : option hume_recv :=
  match e with
  | FromHume r => Some r
  | _ => None
  end.

Definition from_twilio (e : event) : option twilio_recv :=
  match e with
  | FromTwilio r => Some r
  | _ => None
  end.

(** All AI audio offered to a session, in receipt order. *)
Definition hume_audio_in (env : scenario) : list json :=
  omap hume_audio (early env ++ omap from_hume (events env)).

(** All telephony audio offered to a session, in receipt order. *)
Definition twilio_audio_in (env : scenario) : list json :=
  omap twilio_audio (omap from_twilio (events env)).

Definition hume_send_ok (r : hume_recv) : bool :=
  match r with
  | HuMessage _ ok => ok
  | _ => false
  end.

Definition twilio_send_ok (r : twilio_recv) : bool :=
  match r with
  | TwText _ ok => ok
  | _ => false
  end.

(** The telephony frames that handling the AI delivery [r] sends while the
    stream identifier is [sid]. *)
Definition hume_out (sid : json) (r : hume_recv) : list json :=
  match hume_audio r with
  | Some data =>
      twilio_frames (audio_output_effects sid data (hume_send_ok r))
  | None => []
  end.

(** The AI messages that handling the telephony delivery [r] sends while
    [hume_ws] is [ws]. *)
Definition twilio_out (ws : bool) (r : twilio_recv) : list json :=
  match twilio_audio r with
  | Some payload =>
      hume_frames (media_effects ws payload (twilio_send_ok r))
  | None => []
  end.

(** [run] is in its loop. *)
Definition looping (s : session) : bool :=
  match state s with
  | Looping => true
  | _ => false
  end.

(** The AI receive task takes deliveries. *)
Definition receiving (s : session) : bool :=
  match hume_task s with
  | TaskRunning => true
  | _ => false
  end.

(** Connecting to the AI service and accepting the telephony socket. *)
Definition opening (e : effect) : bool :=
  match e with
  | HumeConnect _ | TwilioAccept _ => true
  | _ => false
  end.

(** The effects of the [finally] block of [run]. *)
Definition closing (b : Bridge) : list effect :=
  HumeTaskCancel :: (if hume_ws b then [HumeClose] else []).

(** The [streamSid] of a delivery that is a telephony start event. *)
Definition start_sid (e : event) : option json :=
  match e with
  | FromTwilio (TwText text _) =>
      match json_loads text with
      | Some message =>
          if is_start message then Some (field message "streamSid") else None
      | None => None
      end
  | _ => None
  end.

(** The [streamSid] of the most recent start event among [evs], [None]
    before the first one. *)
Definition last_start_sid (evs : list event) : json :=
  default JNull (last (omap start_sid evs)).

(** [frame] is the telephony frame made from the AI audio [data]. *)
Definition twilio_frame_of (data frame : json) : Prop :=
  exists sid payload,
    to_twilio_payload data = Some payload /\
    frame = twilio_message sid payload.

(** [message] is the AI message made from the telephony audio
    [payload]. *)
Definition hume_message_of (payload message : json) : Prop :=
  exists data, to_hume_data payload = Some data /\ message = audio_message data.

(** The trace of a [connect_hume] that succeeds. *)
Definition connected (config : string) : list effect :=
  [HumeConnect (HUME_WS_URL +:+ "?config_id=" +:+ config);
   Log INFO (ConnectedToHume config);
   HumeSend session_settings;
   Log INFO SentSessionSettings].

(** The session when [accept] comes back, after a [connect_hume] that
    succeeded. *)
Definition accepted (config : string) (env : scenario) : session :=
  let s1 := {| bridge := set_running true (set_hume_ws true (init config));
               hume_task := TaskRunning;
               state := Accepting;
               trace := connected config |} in
  let s2 := fold_left hume_step (early env) s1 in
  {| bridge := bridge s2; hume_task := hume_task s2; state := Looping;
     trace := trace s2 ++ [TwilioAccept (accept_ok env)] |}.

End Reading.

(** Wire texts are written with a single quote for the double quote. *)
Fixpoint text (s : string) : string :=
  match s with
  | EmptyString => EmptyString
  | String c rest =>
      String (if Ascii.eqb c "'"%char then Ascii.ascii_of_nat 34 else c)
             (text rest)
  end.

(** ** Concrete deliveries *)

Module Wire.

Definition start : string :=
  text "{'event':'start','streamSid':'MZ1','start':{'callSid':'CA1'}}".

(** Three mu-law bytes of value zero. *)
Definition media : string :=
  text "{'event':'media','media':{'payload':'AAAA'}}".

(** A payload that is not base64. *)
Definition bad_media : string :=
  text "{'event':'media','media':{'payload':'A'}}".

Definition stop : string := text "{'event':'stop'}".

(** Six frames of 48 kHz silence. *)
Definition audio_output : string :=
  text "{'type':'audio_output','data':'AAAAAAAAAAAAAAAA'}".

(** Audio that is not base64. *)
Definition bad_audio_output : string :=
  text "{'type':'audio_output','data':'A'}".


(** A bridge in the middle of a call. *)
Definition in_call : Bridge :=
  {| config_id := "cfg"; hume_ws := true; stream_sid := JStr "MZ1";
     call_sid := JStr "CA1"; _running := true |}.

(** A session in the middle of a call, with an empty trace. *)
Definition mid_call : session :=
  {| bridge := in_call; hume_task := TaskRunning; state := Looping;
     trace := [] |}.

Definition audio_output_message : json :=
  JObj [("type", JStr "audio_output"); ("data", JStr "AAAAAAAAAAAAAAAA")].


Definition bad_media_message : json :=
  JObj [("event", JStr "media"); ("media", JObj [("payload", JStr "A")])].

(** A call: the AI service connects, the telephony socket is accepted,
    and [evs] are delivered. *)
Definition call (evs : list event) : scenario :=
  {| connect := ConnectOk true; early := []; accept_ok := true;
     events := evs |}.

(** The bridge when the loop of [run] starts. *)
Definition ready : Bridge := set_running true (set_hume_ws true (init "cfg")).

(** Sessions on the executable library. *)
Definition session_of (evs : list event) : session :=
  @run CPython.lib "cfg" (call evs).

Definition bad_media_call : session :=
  session_of [FromTwilio (TwText start true);
              FromTwilio (TwText bad_media true);
              FromTwilio (TwText media true)].

Definition bad_audio_output_call : session :=
  session_of [FromTwilio (TwText start true);
              FromHume (HuMessage bad_audio_output true);
              FromHume (HuMessage audio_output true)].

Definition bad_media_before_start : session :=
  session_of [FromTwilio (TwText bad_media true);
              FromTwilio (TwText start true)].


Definition idle : list event := [FromTwilio TwTimeout].

Definition audio_before_start : list event :=
  [FromHume (HuMessage audio_output true)].

Definition no_start : list event :=
  [FromTwilio TwTimeout; FromTwilio (TwText media true);
   FromHume (HuMessage audio_output true); FromTwilio TwTimeout].

(** The deliveries up to and including the start event. *)
Definition after_start : list event := [FromTwilio (TwText start true)].

(** The media event of [media], parsed. *)
Definition media_message : json :=
  JObj [("event", JStr "media"); ("media", JObj [("payload", JStr "AAAA")])].

Definition whole_call : list event :=
  [FromTwilio (TwText start true); FromHume (HuMessage audio_output true);
   FromTwilio (TwText media true); FromTwilio (TwText stop true)].

End Wire.

(** ** More ways to read values and traces *)

Definition is_dict (v : json) : bool :=
  match v with
  | JObj _ => true
  | _ => false
  end.

(** [message.get(k, {})] read off a value. *)
Definition field_or_empty (message : json) (k : string) : json :=
  match message with
  | JObj d => default (JObj []) (dict_get d k)
  | _ => JNull
  end.

Definition is_stop (message : json) : bool :=
  py_eq_str (field message "event") "stop".

(** [hume_task] after [hume_task.cancel()]. *)
Definition cancelled (t : task) : task :=
  match t with
  | TaskRunning => TaskCancelled
  | _ => t
  end.

(** The effects of the [finally] block of [run]. *)
Definition is_closing (e : effect) : bool :=
  match e with
  | HumeTaskCancel | HumeClose => true
  | _ => false
  end.

(** Linear PCM as frames of two bytes. *)
Module Pcm.

Definition frame : Type := byte * byte.

Definition flatten (frames : list frame) : bytes :=
  flat_map (fun f : frame => [f.1; f.2]) frames.

(** The frame [phase] places ahead and every sixth frame after it. *)
Fixpoint decimate (phase : nat) (frames : list frame) : list frame :=
  match frames with
  | [] => []
  | f :: rest =>
      match phase with
      | O => f :: decimate 5 rest
      | S phase' => decimate phase' rest
      end
  end.

(** The 32-bit sample of a frame. *)
Definition sample (f : frame) : Z := CPython.GETSAMPLE32 f.1 f.2.

(** What 8000 to 48000 writes for the frames after the first one: five
    interpolated frames and the frame itself, for each of them. *)
Fixpoint interpolated (c : Z) (frames : list frame) : bytes :=
  match frames with
  | [] => []
  | f :: rest =>
      Resampled.interp 6 c (sample f) 5 ++ Resampled.interp 6 c (sample f) 4 ++
      Resampled.interp 6 c (sample f) 3 ++ Resampled.interp 6 c (sample f) 2 ++
      Resampled.interp 6 c (sample f) 1 ++ [f.1; f.2]
      ++ interpolated (sample f) rest
  end.

(** What 8000 to 48000 writes. *)
Definition upsampled (frames : list frame) : bytes :=
  match frames with
  | [] => []
  | f :: rest => [f.1; f.2] ++ interpolated (sample f) rest
  end.

End Pcm.

(** More concrete deliveries. *)
Module Wire2.

Definition mark : string := text "{'event':'mark','mark':{'name':'m1'}}".

Definition mark_message : json :=
  JObj [("event", JStr "mark"); ("mark", JObj [("name", JStr "m1")])].

Definition array : string := "[]".

Definition start_message : json :=
  JObj [("event", JStr "start"); ("streamSid", JStr "MZ1");
        ("start", JObj [("callSid", JStr "CA1")])].

Definition stop_message : json := JObj [("event", JStr "stop")].

Definition user_message : json :=
  JObj [("type", JStr "user_message");
        ("message", JObj [("content", JStr "hello")])].

Definition error_message : json :=
  JObj [("type", JStr "error"); ("message", JStr "quota"); ("code", JInt 42)].

Definition bare_media_message : json := JObj [("event", JStr "media")].

(** The session in the middle of a call once the AI socket has closed
    with an error. *)
Definition ai_closed : session :=
  {| bridge := Wire.in_call; hume_task := TaskFinished; state := Looping;
     trace := [] ++ [Log INFO HumeConnectionClosed] |}.

(** A call that ends: start, then stop. *)
Definition ended : list event :=
  [FromTwilio (TwText Wire.start true); FromTwilio (TwText Wire.stop true)].

End Wire2.

(** * Theorems *)

(** ** The codec round trip on the executable library *)

Module CodecFacts.
Import CPython Resampled.

Lemma ulaw2lin_frames (b : bytes) : ulaw2lin b = Some (flat_map frame b).
Proof. reflexivity. Qed.

Lemma get_frame (u : byte) :
  GETSAMPLE32 (byte_of (Z.shiftr (sample32 u) 16))
              (byte_of (Z.shiftr (Z.shiftr (sample32 u) 16) 8))
  = sample32 u.
Proof. destruct u; vm_compute; reflexivity. Qed.

Lemma read_cons (v : Z) (rest : bytes) (i o p c d : Z) :
  ratecv_read (SETSAMPLE32 v ++ rest) i o p c d =
  (let cur := GETSAMPLE32 (byte_of (Z.shiftr v 16))
                          (byte_of (Z.shiftr (Z.shiftr v 16) 8)) in
   let '(out, d') :=
     ratecv_write (Z.to_nat ((d + o) / i) + 1) i o c cur (d + o) in
   app out <$> ratecv_read rest i o c cur d').
Proof. reflexivity. Qed.

Lemma write_step (n : nat) (i o p c d : Z) :
  0 <= d ->
  ratecv_write (S n) i o p c d =
  (let '(out, d') := ratecv_write n i o p c (d - i) in
   (interp o p c d ++ out, d')).
Proof.
  intros Hd. cbn [ratecv_write].
  destruct (Z.ltb_spec d 0) as [Hlt|_]; [lia | reflexivity].
Qed.

Lemma write_stop (n : nat) (i o p c d : Z) :
  d < 0 -> ratecv_write n i o p c d = ([], d).
Proof.
  intros Hd. destruct n as [|n]; cbn [ratecv_write]; [reflexivity |].
  destruct (Z.ltb_spec d 0) as [_|Hge]; [reflexivity | lia].
Qed.

Lemma interp_last (o p c : Z) : 0 < o -> interp o p c 0 = SETSAMPLE32 c.
Proof.
  intros Ho. unfold interp. f_equal.
  replace (p * 0 + c * (o - 0)) with (c * o) by lia.
  apply Z.quot_mul. lia.
Qed.

Lemma write_up (p c : Z) :
  ratecv_write 6 1 6 p c 5 =
  (interp 6 p c 5 ++ interp 6 p c 4 ++ interp 6 p c 3 ++ interp 6 p c 2 ++
   interp 6 p c 1 ++ SETSAMPLE32 c, -1).
Proof.
  do 6 (rewrite write_step by lia). rewrite write_stop by lia.
  cbv beta iota zeta. rewrite interp_last by lia.
  rewrite app_nil_r. reflexivity.
Qed.

Lemma up_tail (us : list byte) (p c : Z) :
  ratecv_read (flat_map frame us) 1 6 p c (-1) = Some (up_rest c us).
Proof.
  revert p c. induction us as [|u us IH]; intros p c; [reflexivity |].
  cbn [flat_map]. unfold frame at 1. rewrite read_cons, get_frame.
  cbv zeta.
  change (Z.to_nat ((-1 + 6) / 1) + 1)%nat with 6%nat.
  change (-1 + 6) with 5.
  rewrite write_up, IH. cbn [fmap option_fmap option_map up_rest].
  unfold frame. rewrite <- !app_assoc. reflexivity.
Qed.

Lemma ratecv_up (u : byte) (us : list byte) :
  ratecv (flat_map frame (u :: us)) 8000 48000
  = Some (frame u ++ up_rest (sample32 u) us).
Proof.
  unfold ratecv.
  change (Z.gcd 8000 48000) with 8000.
  change ((8000 <=? 0) || (48000 <=? 0)) with false.
  change (8000 / 8000) with 1. change (48000 / 8000) with 6.
  cbv iota zeta.
  cbn [flat_map]. unfold frame at 1. rewrite read_cons, get_frame.
  cbv zeta.
  change (Z.to_nat ((- (6) + 6) / 1) + 1)%nat with 1%nat.
  change (- (6) + 6) with 0.
  rewrite write_step by lia. rewrite write_stop by lia.
  cbv beta iota zeta. rewrite interp_last by lia.
  change (0 - 1) with (-1). rewrite up_tail. rewrite app_nil_r.
  reflexivity.
Qed.

(** Reading an interpolated frame between two picks of 48000 to 8000
    writes nothing. *)
Lemma read_skip (v : Z) (rest : bytes) (p c d : Z) :
  d + 1 < 0 ->
  ratecv_read (SETSAMPLE32 v ++ rest) 6 1 p c d =
  ratecv_read rest 6 1 c
    (GETSAMPLE32 (byte_of (Z.shiftr v 16))
                 (byte_of (Z.shiftr (Z.shiftr v 16) 8))) (d + 1).
Proof.
  intros Hd. rewrite read_cons. cbv zeta. rewrite write_stop by lia.
  destruct (ratecv_read _ _ _ _ _ _); reflexivity.
Qed.

(** Reading the frame of [u] at phase [-1] writes it back. *)
Lemma read_pick (u : byte) (rest : bytes) (p c : Z) :
  ratecv_read (frame u ++ rest) 6 1 p c (-1) =
  app (frame u) <$> ratecv_read rest 6 1 c (sample32 u) (-6).
Proof.
  unfold frame. rewrite read_cons, get_frame. cbv zeta.
  change (Z.to_nat ((-1 + 1) / 6) + 1)%nat with 1%nat.
  change (-1 + 1) with 0.
  rewrite write_step by lia. rewrite write_stop by lia.
  cbv beta iota zeta. rewrite interp_last by lia.
  rewrite app_nil_r. reflexivity.
Qed.

Lemma down_tail (us : list byte) (c p0 c0 : Z) :
  ratecv_read (up_rest c us) 6 1 p0 c0 (-6) = Some (flat_map frame us).
Proof.
  revert c p0 c0. induction us as [|u us IH]; intros c p0 c0; [reflexivity |].
  cbn [up_rest]. unfold interp.
  do 5 (rewrite read_skip by lia).
  replace (-6 + 1 + 1 + 1 + 1 + 1) with (-1) by lia.
  rewrite read_pick, IH. reflexivity.
Qed.

Lemma ratecv_down (u : byte) (us : list byte) :
  ratecv (frame u ++ up_rest (sample32 u) us) 48000 8000
  = Some (flat_map frame (u :: us)).
Proof.
  unfold ratecv.
  change (Z.gcd 48000 8000) with 8000.
  change ((48000 <=? 0) || (8000 <=? 0)) with false.
  change (8000 / 8000) with 1. change (48000 / 8000) with 6.
  cbv iota zeta. change (- (1)) with (-1).
  rewrite read_pick, down_tail. reflexivity.
Qed.

Lemma lin2ulaw_frames (us : list byte) :
  lin2ulaw (flat_map frame us) = Some (map requantise us).
Proof.
  induction us as [|u us IH]; [reflexivity |].
  cbn [flat_map]. unfold frame at 1. unfold SETSAMPLE32, SETINT16.
  cbn [app lin2ulaw]. rewrite IH. cbn [fmap option_fmap option_map map].
  do 2 f_equal. destruct u; vm_compute; reflexivity.
Qed.

Lemma length_up_rest (c : Z) (us : list byte) :
  length (up_rest c us) = (12 * length us)%nat.
Proof.
  revert c. induction us as [|u us IH]; intros c; [reflexivity |].
  cbn [up_rest]. rewrite !length_app, IH. cbn. lia.
Qed.

Lemma map_requantise_zero (n : nat) :
  map requantise (repeat x00 n) = repeat x00 n.
Proof. induction n as [|n IH]; [reflexivity | cbn; rewrite IH; reflexivity]. Qed.

End CodecFacts.

(** ** The two handlers *)

Ltac io_unfold :=
  unfold handle_hume_message, handle_twilio_message, py_get,
    py_get_or_empty, py_b64decode, hume_send, twilio_send_json, logger,
    emit, modify, gets, call, try_except, bind, ret, raise,
    resample, pcm_to_ulaw, ulaw_to_pcm in *.

#[local] Arguments py_eq_str : simpl never.
#[local] Arguments truthy : simpl never.
#[local] Arguments dict_get : simpl never.

(** Case analysis on the innermost scrutinee that blocks evaluation. *)
Ltac io_case :=
  match goal with
  | |- context [match ?c with _ => _ end] =>
      lazymatch c with
      | context [match _ with _ => _ end] => fail
      | _ => destruct c eqn:?
      end
  end.

Ltac io_cases := cbn; repeat (io_case; cbn).

Section HandlerFacts.
Context `{PyLib}.

Lemma handle_hume_message_post (message : json) (send_ok : bool) (b : Bridge) :
  post (handle_hume_message message send_ok b) = b.
Proof.
  destruct message; try reflexivity.
  io_unfold. io_cases; reflexivity.
Qed.


Lemma handle_hume_audio_output (message : json) (send_ok : bool) (b : Bridge) :
  is_audio_output message = true ->
  handle_hume_message message send_ok b
  = Res (inr tt) b
        (audio_output_effects (stream_sid b) (field message "data") send_ok).
Proof.
  unfold is_audio_output, audio_output_effects, to_twilio_payload,
    ai_to_telephony, resample, pcm_to_ulaw.
  destruct message; try discriminate. intros Hty.
  io_unfold. cbn in *. rewrite Hty.
  io_cases; simplify_option_eq; reflexivity || congruence.
Qed.

Lemma handle_hume_twilio_frames (message : json) (send_ok : bool) (b : Bridge) :
  twilio_frames (emitted (handle_hume_message message send_ok b))
  = if is_audio_output message
    then twilio_frames
           (audio_output_effects (stream_sid b) (field message "data") send_ok)
    else [].
Proof.
  destruct (is_audio_output message) eqn:Hty.
  - rewrite handle_hume_audio_output by assumption. reflexivity.
  - unfold is_audio_output in Hty. destruct message; try reflexivity.
    io_unfold. cbn in *. rewrite Hty. io_cases; reflexivity.
Qed.

Lemma handle_hume_hume_frames (message : json) (send_ok : bool) (b : Bridge) :
  hume_frames (emitted (handle_hume_message message send_ok b)) = [].
Proof.
  destruct message; try reflexivity.
  io_unfold. io_cases; reflexivity.
Qed.

Lemma handle_twilio_twilio_frames (message : json) (send_ok : bool) (b : Bridge) :
  twilio_frames (emitted (handle_twilio_message message send_ok b)) = [].
Proof.
  destruct message; try reflexivity.
  io_unfold. io_cases; reflexivity.
Qed.

Lemma handle_twilio_hume_frames (message : json) (send_ok : bool) (b : Bridge) :
  hume_frames (emitted (handle_twilio_message message send_ok b))
  = if is_media message
    then hume_frames
           (media_effects (hume_ws b) (field (field message "media") "payload")
                          send_ok)
    else [].
Proof.
  unfold is_media, media_effects, to_hume_data, telephony_to_ai, resample,
    ulaw_to_pcm.
  destruct message; try reflexivity.
  io_unfold. cbn.
  destruct (py_eq_str (default JNull (dict_get items "event")) "start") eqn:Hs.
  - assert (py_eq_str (default JNull (dict_get items "event")) "media" = false)
      as ->.
    { destruct (default JNull (dict_get items "event")); try reflexivity.
      cbn in *. apply String.eqb_eq in Hs. subst. reflexivity. }
    io_cases; reflexivity.
  - unfold field.
    destruct (dict_get items "media") as [media|] eqn:Hm; [destruct media |];
      io_cases; simplify_option_eq; reflexivity || congruence.
Qed.


Lemma start_not_media (v : json) :
  py_eq_str v "start" = true -> py_eq_str v "media" = false.
Proof.
  destruct v; try discriminate. unfold py_eq_str.
  intros Hs. apply String.eqb_eq in Hs. subst. reflexivity.
Qed.

(** What [handle_twilio_message] does to the fields of the bridge. *)
Lemma handle_twilio_fields (message : json) (send_ok : bool) (b : Bridge) :
  let r := handle_twilio_message message send_ok b in
  config_id (post r) = config_id b /\
  hume_ws (post r) = hume_ws b /\
  stream_sid (post r)
  = (if is_start message then field message "streamSid" else stream_sid b) /\
  (if is_start message then True else call_sid (post r) = call_sid b).
Proof.
  unfold is_start, field.
  destruct message as [| | | | | |items];
    try (unfold py_eq_str; cbn; tauto).
  io_unfold. cbn.
  destruct (py_eq_str (default JNull (dict_get items "event")) "start") eqn:Hs;
    io_cases; tauto.
Qed.

Lemma handle_twilio_wire (message : json) (send_ok : bool) (b : Bridge) :
  let r := handle_twilio_message message send_ok b in
  wire (emitted r) = map HumeSend (hume_frames (emitted r)).
Proof.
  destruct message; try reflexivity.
  io_unfold. io_cases; reflexivity.
Qed.

Lemma handle_hume_wire (message : json) (send_ok : bool) (b : Bridge) :
  let r := handle_hume_message message send_ok b in
  wire (emitted r) = map TwilioSend (twilio_frames (emitted r)).
Proof.
  destruct message; try reflexivity.
  io_unfold. io_cases; reflexivity.
Qed.

(** A media event whose payload is absent, empty or converts is handled
    without an exception and without touching the bridge, whatever
    [stream_sid] is. *)
Lemma handle_twilio_media
    (items media : list (string * json)) (send_ok : bool) (b : Bridge) :
  py_eq_str (default JNull (dict_get items "event")) "media" = true ->
  default (JObj []) (dict_get items "media") = JObj media ->
  truthy (default JNull (dict_get media "payload")) && hume_ws b = false \/
  (send_ok = true /\
   exists data, to_hume_data (default JNull (dict_get media "payload"))
                = Some data) ->
  handle_twilio_message (JObj items) send_ok b
  = Res (inr tt) b
        (media_effects (hume_ws b) (default JNull (dict_get media "payload"))
                       send_ok).
Proof.
  intros Hev Hmedia Hok.
  assert (py_eq_str (default JNull (dict_get items "event")) "start" = false)
    as Hns.
  { destruct (py_eq_str (default JNull (dict_get items "event")) "start")
      eqn:Hs; [|reflexivity].
    apply start_not_media in Hs. congruence. }
  unfold media_effects, to_hume_data, telephony_to_ai in *. io_unfold.
  cbn. rewrite Hns, Hev, Hmedia. cbn.
  destruct Hok as [Hguard | (-> & data & Hdata)].
  - rewrite Hguard. reflexivity.
  - destruct (truthy (default JNull (dict_get media "payload")) && hume_ws b);
      [|reflexivity].
    destruct (default JNull (dict_get media "payload")); try discriminate.
    destruct (b64decode s) as [mulaw|]; [|discriminate]. cbn in *.
    destruct (ulaw2lin mulaw) as [pcm|]; [|discriminate]. cbn in *.
    destruct (ratecv pcm 8000 48000) as [pcm48|]; [|discriminate]. cbn in *.
    reflexivity.
Qed.

End HandlerFacts.

(** ** The two loops *)

Lemma twilio_frames_app (t1 t2 : list effect) :
  twilio_frames (t1 ++ t2) = twilio_frames t1 ++ twilio_frames t2.
Proof. apply omap_app. Qed.

Lemma hume_frames_app (t1 t2 : list effect) :
  hume_frames (t1 ++ t2) = hume_frames t1 ++ hume_frames t2.
Proof. apply omap_app. Qed.

Lemma wire_app (t1 t2 : list effect) : wire (t1 ++ t2) = wire t1 ++ wire t2.
Proof. apply List.filter_app. Qed.

Ltac frames_norm :=
  cbn [post emitted outcome app];
  rewrite ?hume_frames_app, ?twilio_frames_app, ?wire_app, ?map_app.

Section LoopFacts.
Context `{PyLib}.

Lemma receive_hume_iteration_spec (r : hume_recv) (b : Bridge) :
  let res := receive_hume_iteration r b in
  post res = b /\
  hume_frames (emitted res) = [] /\
  twilio_frames (emitted res) = hume_out (stream_sid b) r /\
  wire (emitted res) = map TwilioSend (twilio_frames (emitted res)).
Proof.
  unfold hume_out, hume_audio, receive_hume_iteration, try_except, bind,
    call, logger, emit, ret, raise.
  cbn [enabled].
  destruct r as [text ok| |]; cbn [hume_send_ok post emitted]; try (cbn; tauto).
  destruct (json_loads text) as [message|]; [|cbn; tauto].
  pose proof (handle_hume_message_post message ok b) as Hpost.
  pose proof (handle_hume_hume_frames message ok b) as Hhume.
  pose proof (handle_hume_twilio_frames message ok b) as Htwilio.
  pose proof (handle_hume_wire message ok b) as Hwire.
  destruct (handle_hume_message message ok b) as [[e|[]] b' out];
    cbn [post emitted] in *; subst b'.
  - destruct e; frames_norm; rewrite Hwire, Hhume, Htwilio; cbn;
      rewrite ?app_nil_r; destruct (is_audio_output message); tauto.
  - frames_norm. rewrite Hwire, Hhume, Htwilio; cbn; rewrite ?app_nil_r.
    destruct (is_audio_output message); tauto.
Qed.

Lemma twilio_iteration_spec (r : twilio_recv) (b : Bridge) :
  let res := twilio_iteration r b in
  (outcome res = inr Continue \/ outcome res = inr Break) /\
  config_id (post res) = config_id b /\
  hume_ws (post res) = hume_ws b /\
  stream_sid (post res) = default (stream_sid b) (start_sid (FromTwilio r)) /\
  twilio_frames (emitted res) = [] /\
  hume_frames (emitted res) = twilio_out (hume_ws b) r /\
  wire (emitted res) = map HumeSend (hume_frames (emitted res)).
Proof.
  unfold twilio_out, twilio_audio, start_sid, twilio_iteration, try_except,
    bind, call, logger, emit, ret, raise.
  cbn [enabled].
  destruct r as [text ok| |]; cbn [twilio_send_ok post emitted];
    try (cbn; tauto).
  destruct (json_loads text) as [message|]; [|cbn; tauto].
  pose proof (handle_twilio_fields message ok b) as (Hcfg & Hws & Hsid & _).
  pose proof (handle_twilio_twilio_frames message ok b) as Htwilio.
  pose proof (handle_twilio_hume_frames message ok b) as Hhume.
  pose proof (handle_twilio_wire message ok b) as Hwire.
  destruct (handle_twilio_message message ok b) as [[e|[]] b' out];
    cbn [post emitted] in *.
  - destruct e; frames_norm; rewrite Hwire, Hhume, Htwilio, Hcfg, Hws, Hsid;
      cbn; rewrite ?app_nil_r;
      destruct (is_start message), (is_media message); tauto.
  - frames_norm. rewrite Hwire, Hhume, Htwilio, Hcfg, Hws, Hsid;
      cbn; rewrite ?app_nil_r.
    destruct (is_start message), (is_media message); tauto.
Qed.

Lemma twilio_iteration_timeout (b : Bridge) :
  twilio_iteration TwTimeout b = Res (inr Continue) b [].
Proof. reflexivity. Qed.

Lemma opening_wire (t : list effect) :
  List.filter opening t = List.filter opening (wire t).
Proof.
  induction t as [|e t IH]; [reflexivity |].
  destruct e; cbn; rewrite ?IH; reflexivity.
Qed.

Lemma opening_hume_send (l : list json) :
  List.filter opening (map HumeSend l) = [].
Proof. induction l; [reflexivity | assumption]. Qed.

Lemma opening_twilio_send (l : list json) :
  List.filter opening (map TwilioSend l) = [].
Proof. induction l; [reflexivity | assumption]. Qed.

Lemma teardown_spec (b : Bridge) : teardown b = Res (inr tt) b (closing b).
Proof. unfold teardown, closing, bind, emit, gets, ret. cbn. destruct (hume_ws b); reflexivity. Qed.

Lemma finish_spec (st : status) (s : session) :
  bridge (finish st s) = bridge s /\
  state (finish st s) = st /\
  trace (finish st s) = trace s ++ closing (bridge s).
Proof. unfold finish. rewrite teardown_spec. cbn. tauto. Qed.

Lemma closing_frames (b : Bridge) :
  twilio_frames (closing b) = [] /\ hume_frames (closing b) = [] /\
  List.filter opening (closing b) = [].
Proof. unfold closing. destruct (hume_ws b); cbn; tauto. Qed.

Lemma hume_step_spec (s : session) (r : hume_recv) :
  bridge (hume_step s r) = bridge s /\
  state (hume_step s r) = state s /\
  exists new,
    trace (hume_step s r) = trace s ++ new /\
    hume_frames new = [] /\
    twilio_frames new
    = (if receiving s then hume_out (stream_sid (bridge s)) r else []) /\
    wire new = map TwilioSend (twilio_frames new).
Proof.
  unfold hume_step, receiving.
  destruct (hume_task s);
    try (repeat split; exists []; rewrite app_nil_r; repeat split; reflexivity).
  pose proof (receive_hume_iteration_spec r (bridge s)) as (Hp & Hh & Ht & Hw).
  cbn [bridge state trace]. repeat split; try assumption.
  exists (emitted (receive_hume_iteration r (bridge s))). tauto.
Qed.

(** The AI receive task, fed one delivery at a time, does what
    [receive_hume_messages] does on the whole list. *)
Lemma receive_hume_messages_fold (rs : list hume_recv) (s : session) :
  hume_task s = TaskRunning ->
  bridge (fold_left hume_step rs s)
  = post (receive_hume_messages rs (bridge s)) /\
  trace (fold_left hume_step rs s)
  = trace s ++ emitted (receive_hume_messages rs (bridge s)).
Proof.
  revert s. induction rs as [|r rs IH]; intros s Htask.
  - cbn. rewrite app_nil_r. split; reflexivity.
  - assert (forall s', hume_task s' <> TaskRunning ->
                       fold_left hume_step rs s' = s') as Hidle.
    { intros s' Hs'. clear IH. induction rs as [|r' rs IH']; [reflexivity |].
      cbn [fold_left]. unfold hume_step at 2.
      destruct (hume_task s'); try congruence; exact IH'. }
    assert (hume_step s r
            = {| bridge := post (receive_hume_iteration r (bridge s));
                 hume_task :=
                   match outcome (receive_hume_iteration r (bridge s)) with
                   | inr true => TaskRunning
                   | _ => TaskFinished
                   end;
                 state := state s;
                 trace := trace s
                          ++ emitted (receive_hume_iteration r (bridge s)) |})
      as Hstep.
    { unfold hume_step. rewrite Htask. reflexivity. }
    cbn [fold_left receive_hume_messages]. rewrite Hstep. unfold bind.
    destruct (receive_hume_iteration r (bridge s)) as [[e|[|]] b' out];
      cbn [outcome post emitted].
    + rewrite Hidle by (cbn; discriminate). cbn. split; reflexivity.
    + match goal with
      | |- context [fold_left hume_step rs ?s1] =>
          destruct (IH s1 eq_refl) as (-> & ->)
      end.
      cbn [bridge trace].
      destruct (receive_hume_messages rs b') as [o b'' out']. cbn.
      rewrite app_assoc. split; reflexivity.
    + rewrite Hidle by (cbn; discriminate). cbn.
      rewrite app_nil_r. split; reflexivity.
Qed.

Lemma twilio_step_spec (s : session) (r : twilio_recv) :
  config_id (bridge (twilio_step s r)) = config_id (bridge s) /\
  hume_ws (bridge (twilio_step s r)) = hume_ws (bridge s) /\
  stream_sid (bridge (twilio_step s r))
  = default (stream_sid (bridge s)) (start_sid (FromTwilio r)) /\
  exists new,
    trace (twilio_step s r) = trace s ++ new /\
    twilio_frames new = [] /\
    hume_frames new = twilio_out (hume_ws (bridge s)) r /\
    List.filter opening new = [].
Proof.
  unfold twilio_step, loop_test.
  pose proof (twilio_iteration_spec r (bridge s))
    as (Ho & Hc & Hw & Hs & Ht & Hh & Hwire).
  set (res := twilio_iteration r (bridge s)) in *.
  set (s' := {| bridge := post res; hume_task := hume_task s;
                state := state s; trace := trace s ++ emitted res |}).
  assert (List.filter opening (emitted res) = []) as Hopen.
  { rewrite opening_wire, Hwire. apply opening_hume_send. }
  assert (forall st,
    config_id (bridge (finish st s')) = config_id (bridge s) /\
    hume_ws (bridge (finish st s')) = hume_ws (bridge s) /\
    stream_sid (bridge (finish st s'))
    = default (stream_sid (bridge s)) (start_sid (FromTwilio r)) /\
    exists new,
      trace (finish st s') = trace s ++ new /\
      twilio_frames new = [] /\
      hume_frames new = twilio_out (hume_ws (bridge s)) r /\
      List.filter opening new = []) as Hfin.
  { intros st. destruct (finish_spec st s') as (Hb & _ & Htr).
    rewrite Hb, Htr. cbn [bridge trace s']. repeat split; try assumption.
    exists (emitted res ++ closing (post res)).
    destruct (closing_frames (post res)) as (C1 & C2 & C3).
    rewrite twilio_frames_app, hume_frames_app, List.filter_app, Ht, Hh, C1,
      C2, C3, Hopen, app_assoc, !app_nil_r. tauto. }
  destruct Ho as [-> | ->].
  - destruct (_running (bridge s')); [|apply Hfin].
    cbn [bridge trace s']. repeat split; try assumption.
    exists (emitted res). tauto.
  - apply Hfin.
Qed.

(** One delivery, summed up: what is added to the trace and what becomes
    of the stream identifier. *)
Lemma step_spec (s : session) (e : event) :
  config_id (bridge (step s e)) = config_id (bridge s) /\
  hume_ws (bridge (step s e)) = hume_ws (bridge s) /\
  stream_sid (bridge (step s e))
  = (if looping s then default (stream_sid (bridge s)) (start_sid e)
     else stream_sid (bridge s)) /\
  exists new,
    trace (step s e) = trace s ++ new /\
    twilio_frames new
    = match e with
      | FromHume r =>
          if looping s && receiving s
          then hume_out (stream_sid (bridge s)) r else []
      | FromTwilio _ => []
      end /\
    hume_frames new
    = match e with
      | FromTwilio r =>
          if looping s then twilio_out (hume_ws (bridge s)) r else []
      | FromHume _ => []
      end /\
    List.filter opening new = [].
Proof.
  unfold step, looping.
  destruct (state s) eqn:Hst;
    try (repeat split; exists []; rewrite app_nil_r; destruct e;
         repeat split; reflexivity).
  destruct e as [r|r].
  - apply twilio_step_spec.
  - destruct (hume_step_spec s r) as (Hb & _ & new & Htr & Hh & Ht & Hw).
    rewrite Hb. repeat split. exists new. repeat split; try assumption.
    rewrite opening_wire, Hw. apply opening_twilio_send.
Qed.

Lemma step_stopped (s : session) (e : event) :
  looping s = false -> step s e = s.
Proof. unfold step, looping. destruct (state s); discriminate || reflexivity. Qed.

Lemma loop_stopped (s : session) (evs : list event) :
  looping s = false -> fold_left step evs s = s.
Proof.
  intros Hs. induction evs as [|e evs IH]; [reflexivity |].
  cbn. rewrite step_stopped by assumption. exact IH.
Qed.

End LoopFacts.

(** ** Whole sessions *)

Lemma in_order_nil {A B} (R : A -> B -> Prop) (inputs : list A) :
  in_order R inputs [].
Proof. exists []. split; [apply sublist_nil_l | constructor]. Qed.

Lemma in_order_app {A B} (R : A -> B -> Prop)
    (i1 i2 : list A) (o1 o2 : list B) :
  in_order R i1 o1 -> in_order R i2 o2 -> in_order R (i1 ++ i2) (o1 ++ o2).
Proof.
  intros (f1 & S1 & F1) (f2 & S2 & F2). exists (f1 ++ f2). split.
  - apply sublist_app; assumption.
  - apply Forall2_app; assumption.
Qed.

Lemma in_order_one {A B} (R : A -> B -> Prop) (a : A) (b : B) :
  R a b -> in_order R [a] [b].
Proof. intros HR. exists [a]. split; [reflexivity | repeat constructor; exact HR]. Qed.

Section SessionFacts.
Context `{PyLib}.

Lemma hume_out_null (r : hume_recv) : hume_out JNull r = [].
Proof.
  unfold hume_out, audio_output_effects.
  destruct (hume_audio r); [|reflexivity].
  rewrite andb_false_r. reflexivity.
Qed.

(** Every frame sent for an AI delivery carries the stream identifier of
    the moment, and that identifier is set. *)
Lemma hume_out_sid (sid : json) (r : hume_recv) :
  Forall (fun frame => frame_sid frame = sid /\ truthy sid = true)
         (hume_out sid r).
Proof.
  unfold hume_out, audio_output_effects.
  destruct (hume_audio r) as [data|]; [|constructor].
  destruct (truthy data), (truthy sid) eqn:Hsid; cbn [andb];
    try constructor.
  destruct (to_twilio_payload data); [|constructor].
  destruct (hume_send_ok r); repeat constructor.
Qed.

Lemma hume_out_in_order (sid : json) (r : hume_recv) :
  in_order twilio_frame_of (omap hume_audio [r]) (hume_out sid r).
Proof.
  unfold hume_out, audio_output_effects. cbn [omap list_omap].
  destruct (hume_audio r) as [data|]; [|apply in_order_nil].
  destruct (truthy data && truthy sid); [|apply in_order_nil].
  destruct (to_twilio_payload data) as [payload|] eqn:Hp;
    [|apply in_order_nil].
  destruct (hume_send_ok r); [|apply in_order_nil].
  apply in_order_one. exists sid, payload. split; [exact Hp | reflexivity].
Qed.

Lemma twilio_out_in_order (ws : bool) (r : twilio_recv) :
  in_order hume_message_of (omap twilio_audio [r]) (twilio_out ws r).
Proof.
  unfold twilio_out, media_effects. cbn [omap list_omap].
  destruct (twilio_audio r) as [payload|]; [|apply in_order_nil].
  destruct (truthy payload && ws); [|apply in_order_nil].
  destruct (to_hume_data payload) as [data|] eqn:Hd; [|apply in_order_nil].
  destruct (twilio_send_ok r); [|apply in_order_nil].
  apply in_order_one. exists data. split; [exact Hd | reflexivity].
Qed.

Lemma twilio_out_audio (ws : bool) (r : twilio_recv) :
  Forall (fun m => exists data, m = audio_message data) (twilio_out ws r).
Proof.
  unfold twilio_out, media_effects.
  destruct (twilio_audio r) as [payload|]; [|constructor].
  destruct (truthy payload && ws); [|constructor].
  destruct (to_hume_data payload) as [data|]; [|constructor].
  destruct (twilio_send_ok r); repeat constructor. exists data. reflexivity.
Qed.

Lemma connect_hume_init (config : string) (c : connect_outcome) :
  connect_hume c (init config)
  = match c with
    | ConnectOk true =>
        Res (inr true) (set_hume_ws true (init config)) (connected config)
    | ConnectOk false =>
        Res (inr false) (set_hume_ws true (init config))
            [HumeConnect (HUME_WS_URL +:+ "?config_id=" +:+ config);
             Log INFO (ConnectedToHume config);
             Log ERROR FailedToConnect]
    | ConnectFails => Res (inr false) (init config) [Log ERROR FailedToConnect]
    end.
Proof. destruct c as [|[|]]; reflexivity. Qed.

(** While no start event has been handled the AI receive task only
    writes log records. *)
Lemma early_fold (rs : list hume_recv) (s : session) :
  stream_sid (bridge s) = JNull ->
  bridge (fold_left hume_step rs s) = bridge s /\
  state (fold_left hume_step rs s) = state s /\
  exists log,
    trace (fold_left hume_step rs s) = trace s ++ log /\ wire log = [].
Proof.
  revert s. induction rs as [|r rs IH]; intros s Hsid.
  - repeat split. exists []. rewrite app_nil_r. split; reflexivity.
  - destruct (hume_step_spec s r) as (Hb & Hst & new & Htr & _ & Ht & Hw).
    destruct (IH (hume_step s r)) as (Hb' & Hst' & log & Htr' & Hlog).
    { rewrite Hb. exact Hsid. }
    cbn [fold_left]. rewrite Hb', Hst', Hb, Hst. repeat split.
    exists (new ++ log). rewrite Htr', Htr, app_assoc. split; [reflexivity |].
    rewrite wire_app, Hw, Ht, Hlog, Hsid, hume_out_null.
    destruct (receiving s); reflexivity.
Qed.

Lemma accepted_spec (config : string) (env : scenario) :
  bridge (accepted config env)
  = set_running true (set_hume_ws true (init config)) /\
  state (accepted config env) = Looping /\
  exists log,
    trace (accepted config env)
    = connected config ++ log ++ [TwilioAccept (accept_ok env)] /\
    wire log = [].
Proof.
  unfold accepted. cbn [bridge state trace].
  match goal with
  | |- context [fold_left hume_step (early env) ?s1] =>
      destruct (early_fold (early env) s1) as (Hb & _ & log & Htr & Hlog);
        [reflexivity |]
  end.
  rewrite Hb, Htr. cbn [bridge trace]. repeat split.
  exists log. rewrite app_assoc. split; [reflexivity | exact Hlog].
Qed.

(** [run] after a [connect_hume] that succeeded. *)
Lemma run_connected (config : string) (env : scenario) :
  connect env = ConnectOk true ->
  run config env
  = if accept_ok env
    then fold_left step (events env) (accepted config env)
    else finish (Propagated WebSocketDisconnect) (accepted config env).
Proof.
  intros Hc. unfold run. rewrite Hc, connect_hume_init. cbn [outcome post emitted].
  fold (accepted config env).
  destruct (accept_ok env); [|reflexivity].
  unfold loop_test.
  destruct (accepted_spec config env) as (Hb & _). rewrite Hb. reflexivity.
Qed.

(** [run] after a [connect_hume] that failed. *)
Lemma run_not_connected (config : string) (env : scenario) :
  connect env <> ConnectOk true ->
  run config env
  = {| bridge := post (connect_hume (connect env) (init config));
       hume_task := NotCreated; state := Returned;
       trace := emitted (connect_hume (connect env) (init config)) |}.
Proof.
  intros Hc. unfold run. rewrite connect_hume_init.
  destruct (connect env) as [|[|]]; [reflexivity | congruence | reflexivity].
Qed.

(** The frames of a run of the loop, against what the sockets
    delivered. *)
Lemma loop_frames (evs : list event) (s : session) :
  exists new,
    trace (fold_left step evs s) = trace s ++ new /\
    List.filter opening new = [] /\
    in_order twilio_frame_of (omap hume_audio (omap from_hume evs))
             (twilio_frames new) /\
    in_order hume_message_of (omap twilio_audio (omap from_twilio evs))
             (hume_frames new) /\
    Forall (fun m => exists data, m = audio_message data) (hume_frames new).
Proof.
  revert s. induction evs as [|e evs IH]; intros s.
  - exists []. rewrite app_nil_r. repeat split;
      try apply in_order_nil; constructor.
  - destruct (step_spec s e) as (_ & _ & _ & new1 & Htr1 & Ht1 & Hh1 & Ho1).
    destruct (IH (step s e)) as (new2 & Htr2 & Ho2 & It2 & Ih2 & Fa2).
    exists (new1 ++ new2). cbn [fold_left].
    rewrite Htr2, Htr1, app_assoc, List.filter_app, Ho1, Ho2,
      twilio_frames_app, hume_frames_app.
    change (e :: evs) with ([e] ++ evs). rewrite !omap_app.
    repeat split.
    + apply in_order_app; [|exact It2]. rewrite Ht1.
      destruct e as [r|r]; [apply in_order_nil |]. cbn [omap list_omap from_hume].
      destruct (looping s && receiving s);
        [apply hume_out_in_order | apply in_order_nil].
    + apply in_order_app; [|exact Ih2]. rewrite Hh1.
      destruct e as [r|r]; [|apply in_order_nil]. cbn [omap list_omap from_twilio].
      destruct (looping s);
        [apply twilio_out_in_order | apply in_order_nil].
    + apply Forall_app. split; [|exact Fa2]. rewrite Hh1.
      destruct e as [r|r]; [|constructor].
      destruct (looping s); [apply twilio_out_audio | constructor].
Qed.

Lemma default_last_cons (d v : json) (l : list json) :
  default d (last (v :: l)) = default v (last l).
Proof. rewrite last_cons. destruct (last l); reflexivity. Qed.

(** While [run] is in its loop, [stream_sid] is the [streamSid] of the
    most recent start event. *)
Lemma loop_sid (pre : list event) (s : session) :
  looping (fold_left step pre s) = true ->
  stream_sid (bridge (fold_left step pre s))
  = default (stream_sid (bridge s)) (last (omap start_sid pre)).
Proof.
  revert s. induction pre as [|e pre IH]; intros s Hloop; [reflexivity |].
  cbn [fold_left] in *.
  destruct (looping (step s e)) eqn:Hstep.
  - rewrite IH by assumption.
    destruct (step_spec s e) as (_ & _ & Hsid & _). rewrite Hsid.
    destruct (looping s) eqn:Hs.
    + cbn [omap list_omap]. destruct (start_sid e) as [v|]; [|reflexivity].
      cbn [default]. symmetry. apply default_last_cons.
    + rewrite step_stopped in Hstep by assumption. congruence.
  - rewrite loop_stopped in Hloop by assumption. congruence.
Qed.

(** While [run] is in its loop, [_running] is set. *)
Lemma step_running (s : session) (e : event) :
  (looping s = true -> _running (bridge s) = true) ->
  looping (step s e) = true -> _running (bridge (step s e)) = true.
Proof.
  intros Hinv. unfold step, looping.
  destruct (state s) eqn:Hst; try (rewrite Hst; discriminate).
  destruct e as [r|r].
  - unfold twilio_step, loop_test.
    destruct (outcome (twilio_iteration r (bridge s))) as [ex|[|]];
      cbn [bridge]; try (unfold finish; cbn [state]; discriminate).
    destruct (_running (post (twilio_iteration r (bridge s)))) eqn:Hr;
      cbn [bridge state]; [intros _; exact Hr |].
    unfold finish. cbn [state]. discriminate.
  - destruct (hume_step_spec s r) as (Hb & Hs & _). rewrite Hb.
    intros _. apply Hinv. unfold looping. rewrite Hst. reflexivity.
Qed.

(** An idle timeout changes nothing. *)
Lemma step_timeout (s : session) :
  (looping s = true -> _running (bridge s) = true) ->
  step s (FromTwilio TwTimeout) = s.
Proof.
  intros Hinv. unfold step. destruct (state s) eqn:Hst; try reflexivity.
  unfold twilio_step, loop_test. rewrite twilio_iteration_timeout.
  cbn [outcome post emitted bridge]. rewrite Hinv.
  - rewrite app_nil_r. destruct s; reflexivity.
  - unfold looping. rewrite Hst. reflexivity.
Qed.

Lemma loop_without_timeouts (evs : list event) (s : session) :
  (looping s = true -> _running (bridge s) = true) ->
  fold_left step (List.filter (fun e => negb (is_timeout e)) evs) s
  = fold_left step evs s.
Proof.
  revert s. induction evs as [|e evs IH]; intros s Hinv; [reflexivity |].
  cbn [List.filter].
  destruct (is_timeout e) eqn:He; cbn [negb fold_left].
  - destruct e as [[| |]|]; try discriminate.
    rewrite step_timeout by assumption. apply IH. exact Hinv.
  - apply IH. intros Hl. apply step_running; assumption.
Qed.

(** Every telephony frame of a run of the loop carries a stream
    identifier that is set. *)
Lemma loop_sids (evs : list event) (s : session) :
  exists new,
    trace (fold_left step evs s) = trace s ++ new /\
    Forall (fun frame => truthy (frame_sid frame) = true) (twilio_frames new).
Proof.
  revert s. induction evs as [|e evs IH]; intros s.
  - exists []. rewrite app_nil_r. split; [reflexivity | constructor].
  - destruct (step_spec s e) as (_ & _ & _ & new1 & Htr1 & Ht1 & _).
    destruct (IH (step s e)) as (new2 & Htr2 & F2).
    exists (new1 ++ new2). cbn [fold_left].
    rewrite Htr2, Htr1, app_assoc, twilio_frames_app. split; [reflexivity |].
    apply Forall_app. split; [|exact F2]. rewrite Ht1.
    destruct e as [r|r]; [constructor |].
    destruct (looping s && receiving s); [|constructor].
    eapply Forall_impl; [apply hume_out_sid |].
    cbn beta. intros frame [-> Hsid]. exact Hsid.
Qed.

(** The frames of the trace up to [accept]: the session settings and
    nothing else. *)
Lemma accepted_frames (config : string) (env : scenario) :
  twilio_frames (trace (accepted config env)) = [] /\
  hume_frames (trace (accepted config env)) = [session_settings] /\
  List.filter opening (trace (accepted config env))
  = [HumeConnect (HUME_WS_URL +:+ "?config_id=" +:+ config);
     TwilioAccept (accept_ok env)] /\
  exists rest,
    wire (trace (accepted config env))
    = HumeConnect (HUME_WS_URL +:+ "?config_id=" +:+ config)
      :: HumeSend session_settings :: rest.
Proof.
  destruct (accepted_spec config env) as (_ & _ & log & -> & Hlog).
  assert (twilio_frames log = [] /\ hume_frames log = [] /\
          List.filter opening log = []) as (Ht & Hh & Ho).
  { clear -Hlog. induction log as [|e log IH]; [repeat split |].
    destruct e; cbn in Hlog; try discriminate. apply IH. exact Hlog. }
  rewrite !twilio_frames_app, !hume_frames_app, !List.filter_app, !wire_app,
    Ht, Hh, Ho, Hlog.
  repeat split. eexists. reflexivity.
Qed.

(** The frames of a whole session with the telephony socket accepted. *)
Lemma finish_frames (st : status) (s : session) :
  twilio_frames (trace (finish st s)) = twilio_frames (trace s) /\
  hume_frames (trace (finish st s)) = hume_frames (trace s) /\
  List.filter opening (trace (finish st s)) = List.filter opening (trace s) /\
  wire (trace (finish st s)) = wire (trace s) ++ closing (bridge s).
Proof.
  destruct (finish_spec st s) as (_ & _ & ->).
  destruct (closing_frames (bridge s)) as (C1 & C2 & C3).
  rewrite twilio_frames_app, hume_frames_app, List.filter_app, wire_app, C1,
    C2, C3, !app_nil_r.
  repeat split. f_equal. unfold closing. destruct (hume_ws (bridge s)); reflexivity.
Qed.

Lemma audio_messages_filter (l : list json) :
  Forall (fun m => exists data, m = audio_message data) l ->
  List.filter is_audio_input l = l /\
  List.filter is_session_settings l = [].
Proof.
  induction 1 as [|m l [data ->] _ [IH1 IH2]]; [split; reflexivity |].
  cbn [List.filter]. change (is_audio_input (audio_message data)) with true.
  change (is_session_settings (audio_message data)) with false.
  cbv iota. rewrite IH1, IH2. split; reflexivity.
Qed.

(** Without a start event [stream_sid] stays unset and no telephony frame
    is sent. *)
Lemma loop_no_start (evs : list event) (s : session) :
  omap start_sid evs = [] ->
  stream_sid (bridge s) = JNull ->
  exists new,
    trace (fold_left step evs s) = trace s ++ new /\ twilio_frames new = [].
Proof.
  revert s. induction evs as [|e evs IH]; intros s Hno Hsid.
  - exists []. rewrite app_nil_r. split; reflexivity.
  - cbn [omap list_omap] in Hno.
    destruct (start_sid e) as [v|] eqn:He; [discriminate |].
    destruct (step_spec s e) as (_ & _ & Hs & new1 & Htr1 & Ht1 & _).
    destruct (IH (step s e) Hno) as (new2 & Htr2 & Ht2).
    { rewrite Hs, He, Hsid. destruct (looping s); reflexivity. }
    exists (new1 ++ new2). cbn [fold_left].
    rewrite Htr2, Htr1, app_assoc, twilio_frames_app, Ht1, Ht2, Hsid.
    split; [reflexivity |].
    destruct e as [r|r]; [reflexivity |]. rewrite hume_out_null.
    destruct (looping s && receiving s); reflexivity.
Qed.

Lemma loop_hume_ws (evs : list event) (s : session) :
  hume_ws (bridge (fold_left step evs s)) = hume_ws (bridge s).
Proof.
  revert s. induction evs as [|e evs IH]; intros s; [reflexivity |].
  cbn [fold_left]. rewrite IH. apply step_spec.
Qed.

Lemma loop_running (evs : list event) (s : session) :
  (looping s = true -> _running (bridge s) = true) ->
  looping (fold_left step evs s) = true ->
  _running (bridge (fold_left step evs s)) = true.
Proof.
  revert s. induction evs as [|e evs IH]; intros s Hinv; [exact Hinv |].
  cbn [fold_left]. apply IH. apply step_running. exact Hinv.
Qed.

(** A session that is in its loop was connected and accepted, and holds
    the AI connection with [_running] set. *)
Lemma run_looping (config : string) (env : scenario) :
  looping (run config env) = true ->
  hume_ws (bridge (run config env)) = true /\
  _running (bridge (run config env)) = true.
Proof.
  destruct (connect env) as [|[|]] eqn:Hc.
  - rewrite run_not_connected by (rewrite Hc; discriminate). discriminate.
  - rewrite run_connected by assumption.
    destruct (accepted_spec config env) as (Hb & Hst & _).
    destruct (accept_ok env).
    + intros Hloop. split.
      * rewrite loop_hume_ws, Hb. reflexivity.
      * apply loop_running; [|exact Hloop]. intros _. rewrite Hb. reflexivity.
    + destruct (finish_spec (Propagated WebSocketDisconnect)
                  (accepted config env)) as (_ & Hs & _).
      unfold looping. rewrite Hs. discriminate.
  - rewrite run_not_connected by (rewrite Hc; discriminate). discriminate.
Qed.

(** One more delivery is one more step. *)
Lemma run_snoc
    (config : string) (c : connect_outcome) (early : list hume_recv)
    (acc : bool) (pre : list event) (e : event) :
  run config (mkScenario c early acc (pre ++ [e]))
  = step (run config (mkScenario c early acc pre)) e.
Proof.
  destruct c as [|[|]].
  - rewrite !run_not_connected by discriminate. reflexivity.
  - rewrite !run_connected by reflexivity. cbn [accept_ok events].
    change (accepted config (mkScenario (ConnectOk true) early acc (pre ++ [e])))
      with (accepted config (mkScenario (ConnectOk true) early acc pre)).
    destruct acc.
    + rewrite fold_left_app. reflexivity.
    + symmetry. apply step_stopped.
      destruct (finish_spec (Propagated WebSocketDisconnect)
                  (accepted config (mkScenario (ConnectOk true) early false pre)))
        as (_ & Hs & _).
      unfold looping. rewrite Hs. reflexivity.
  - rewrite !run_not_connected by discriminate. reflexivity.
Qed.

End SessionFacts.

(** * The claims *)

Section Claims.
Context `{PyLib}.

(** C1.  Handling an AI-side [audio_output] message never raises and
    leaves the bridge as it was; it sends no telephony frame while
    [stream_sid] is unset and at most one otherwise; a frame it sends
    carries [stream_sid], which is then set.  In any session every
    outbound telephony frame carries a stream identifier that is set. *)
Theorem audio_output_needs_stream_sid
    (b : Bridge) (message : json) (send_ok : bool)
    (config : string) (env : scenario) :
  is_audio_output message = true ->
  let r := handle_hume_message message send_ok b in
  outcome r = inr tt /\
  post r = b /\
  (length (twilio_frames (emitted r))
   <= if truthy (stream_sid b) then 1 else 0)%nat /\
  Forall (fun frame =>
            frame_sid frame = stream_sid b /\ truthy (frame_sid frame) = true)
         (twilio_frames (emitted r)) /\
  Forall (fun frame => truthy (frame_sid frame) = true)
         (twilio_frames (trace (run config env))).
Proof.
  intros Hty. cbv zeta. rewrite handle_hume_audio_output by assumption.
  cbn [outcome post emitted]. repeat split.
  - unfold audio_output_effects.
    destruct (truthy (field message "data")), (truthy (stream_sid b));
      cbn [andb]; try (cbn; lia).
    destruct (to_twilio_payload (field message "data")); [|cbn; lia].
    destruct send_ok; cbn; lia.
  - unfold audio_output_effects.
    destruct (truthy (field message "data")), (truthy (stream_sid b)) eqn:Hsid;
      cbn [andb]; try constructor.
    destruct (to_twilio_payload (field message "data")); [|constructor].
    destruct send_ok; repeat constructor. exact Hsid.
  - destruct (connect env) as [|[|]] eqn:Hc.
    + rewrite run_not_connected, Hc by (rewrite Hc; discriminate). constructor.
    + rewrite run_connected by assumption.
      destruct (accepted_frames config env) as (Ht & _).
      destruct (accept_ok env).
      * destruct (loop_sids (events env) (accepted config env))
          as (new & -> & Hnew).
        rewrite twilio_frames_app, Ht. exact Hnew.
      * destruct (finish_frames (Propagated WebSocketDisconnect)
                    (accepted config env)) as (-> & _).
        rewrite Ht. constructor.
    + rewrite run_not_connected, Hc by (rewrite Hc; discriminate). constructor.
Qed.

(** C10.  Handling an AI-side message of any kind leaves the whole bridge
    as it was; handling a telephony message leaves [config_id] as it was,
    sets [stream_sid] to the [streamSid] of a start event and leaves it as
    it was otherwise, and leaves [call_sid] as it was unless the message
    is a start event.  No telephony frame is sent before the first
    delivery of the loop, and the frames a delivery adds to the trace
    carry the [streamSid] of the most recent start event delivered before
    it. *)
Theorem only_start_sets_stream_sid
    (b : Bridge) (message : json) (send_ok : bool)
    (config : string) (c : connect_outcome) (early : list hume_recv)
    (acc : bool) (pre : list event) (e : event) :
  post (handle_hume_message message send_ok b) = b /\
  (let r := handle_twilio_message message send_ok b in
   config_id (post r) = config_id b /\
   stream_sid (post r)
   = (if is_start message then field message "streamSid" else stream_sid b) /\
   if is_start message then True else call_sid (post r) = call_sid b) /\
  twilio_frames (trace (run config (mkScenario c early acc []))) = [] /\
  exists new,
    trace (run config (mkScenario c early acc (pre ++ [e])))
    = trace (run config (mkScenario c early acc pre)) ++ new /\
    Forall (fun frame => frame_sid frame = last_start_sid pre)
           (twilio_frames new).
Proof.
  split; [apply handle_hume_message_post |]. split.
  { destruct (handle_twilio_fields message send_ok b) as (Hc & _ & Hs & Hcs).
    cbv zeta. split; [exact Hc |]. split; [exact Hs | exact Hcs]. }
  destruct c as [|[|]].
  - rewrite !run_not_connected by discriminate. split; [reflexivity |].
    exists []. rewrite app_nil_r. split; [reflexivity | constructor].
  - rewrite !run_connected by reflexivity. cbn [accept_ok events].
    change (accepted config (mkScenario (ConnectOk true) early acc (pre ++ [e])))
      with (accepted config (mkScenario (ConnectOk true) early acc [])).
    change (accepted config (mkScenario (ConnectOk true) early acc pre))
      with (accepted config (mkScenario (ConnectOk true) early acc [])).
    set (s0 := accepted config (mkScenario (ConnectOk true) early acc [])).
    destruct (accepted_frames config (mkScenario (ConnectOk true) early acc []))
      as (Ht & _).
    destruct (accepted_spec config (mkScenario (ConnectOk true) early acc []))
      as (Hb & _).
    fold s0 in Ht, Hb.
    destruct acc.
    + split; [exact Ht |].
      rewrite fold_left_app. cbn [fold_left].
      destruct (step_spec (fold_left step pre s0) e)
        as (_ & _ & _ & new & Htr & Hnew & _).
      exists new. split; [exact Htr |]. rewrite Hnew.
      destruct e as [r|r]; [constructor |].
      destruct (looping (fold_left step pre s0)) eqn:Hloop;
        cbn [andb]; [|constructor].
      destruct (receiving (fold_left step pre s0)); [|constructor].
      rewrite loop_sid by assumption. rewrite Hb. cbn [stream_sid set_running set_hume_ws init].
      eapply Forall_impl; [apply hume_out_sid |].
      cbn beta. intros frame [Hf _]. exact Hf.
    + destruct (finish_frames (Propagated WebSocketDisconnect) s0) as (-> & _).
      split; [exact Ht |].
      exists []. rewrite app_nil_r. split; [reflexivity | constructor].
  - rewrite !run_not_connected by discriminate. split; [reflexivity |].
    exists []. rewrite app_nil_r. split; [reflexivity | constructor].
Qed.

(** C8, amended.  In each direction the frames forwarded to the opposite
    side are made, in receipt order, from audio messages received on this
    side: each forwarded frame is the transcoding of one received message
    of its own, and the messages in between are dropped.  Nothing is
    reordered and no frame is made from two messages.  A message that
    meets none of the conditions for dropping is forwarded when it is
    received, as one frame and nothing else: an [audio_output] message
    whose audio is set and converts, received while [run] is in its
    loop, the receive task runs, [stream_sid] is set and the send goes
    through, adds to the trace the one media frame with that
    [stream_sid] and the converted audio; a media event whose payload is
    set and converts, received while [run] is in its loop and the send
    goes through, adds the one [audio_input] message with the converted
    audio. *)
Theorem frames_forwarded_in_order (config : string) (env : scenario) :
  in_order twilio_frame_of (hume_audio_in env)
           (twilio_frames (trace (run config env))) /\
  in_order hume_message_of (twilio_audio_in env)
           (List.filter is_audio_input (hume_frames (trace (run config env)))) /\
  (forall (c : connect_outcome) (early : list hume_recv) (acc : bool)
          (pre : list event) (text : string) (message : json)
          (audio : string) (pcm48 pcm8 mulaw : bytes),
     let s := run config (mkScenario c early acc pre) in
     looping s = true ->
     receiving s = true ->
     truthy (stream_sid (bridge s)) = true ->
     json_loads text = Some message ->
     is_audio_output message = true ->
     field message "data" = JStr audio ->
     truthy (JStr audio) = true ->
     b64decode audio = Some pcm48 ->
     resample pcm48 48000 8000 = Some pcm8 ->
     pcm_to_ulaw pcm8 = Some mulaw ->
     trace (run config
              (mkScenario c early acc (pre ++ [FromHume (HuMessage text true)])))
     = trace s
       ++ [TwilioSend
             (JObj [("event", JStr "media");
                    ("streamSid", stream_sid (bridge s));
                    ("media", JObj [("payload", JStr (b64encode mulaw))])])]) /\
  (forall (c : connect_outcome) (early : list hume_recv) (acc : bool)
          (pre : list event) (text : string) (message : json)
          (media : list (string * json)) (payload : string)
          (mulaw pcm8 pcm48 : bytes),
     let s := run config (mkScenario c early acc pre) in
     looping s = true ->
     json_loads text = Some message ->
     is_media message = true ->
     field message "media" = JObj media ->
     field (JObj media) "payload" = JStr payload ->
     truthy (JStr payload) = true ->
     b64decode payload = Some mulaw ->
     ulaw_to_pcm mulaw = Some pcm8 ->
     resample pcm8 8000 48000 = Some pcm48 ->
     trace (run config
              (mkScenario c early acc (pre ++ [FromTwilio (TwText text true)])))
     = trace s
       ++ [HumeSend
             (JObj [("type", JStr "audio_input");
                    ("data", JStr (b64encode pcm48))])]).
Proof.
  split; [|split; [|split]].
  - destruct (connect env) as [|[|]] eqn:Hc.
    + rewrite run_not_connected, Hc by (rewrite Hc; discriminate).
      apply in_order_nil.
    + rewrite run_connected by assumption.
      destruct (accepted_frames config env) as (Ht & _).
      destruct (accept_ok env).
      * destruct (loop_frames (events env) (accepted config env))
          as (new & -> & _ & It & _).
        rewrite twilio_frames_app, Ht.
        unfold hume_audio_in. rewrite omap_app.
        apply (in_order_app _ _ _ []); [apply in_order_nil | exact It].
      * destruct (finish_frames (Propagated WebSocketDisconnect)
                    (accepted config env)) as (-> & _).
        rewrite Ht. apply in_order_nil.
    + rewrite run_not_connected, Hc by (rewrite Hc; discriminate).
      apply in_order_nil.
  - destruct (connect env) as [|[|]] eqn:Hc.
    + rewrite run_not_connected, Hc by (rewrite Hc; discriminate).
      apply in_order_nil.
    + rewrite run_connected by assumption.
      destruct (accepted_frames config env) as (_ & Hh & _).
      destruct (accept_ok env).
      * destruct (loop_frames (events env) (accepted config env))
          as (new & -> & _ & _ & Ih & Fa).
        rewrite hume_frames_app, Hh, List.filter_app.
        destruct (audio_messages_filter _ Fa) as (-> & _).
        exact Ih.
      * destruct (finish_frames (Propagated WebSocketDisconnect)
                    (accepted config env)) as (_ & -> & _).
        rewrite Hh. apply in_order_nil.
    + rewrite run_not_connected, Hc by (rewrite Hc; discriminate).
      apply in_order_nil.
  - intros c early acc pre text message audio pcm48 pcm8 mulaw s
      Hloop Hrecv Hsid Hjson Hty Hdata Haudio Hb64 Hres Hulaw.
    rewrite run_snoc. fold s. unfold step, hume_step.
    unfold looping in Hloop. unfold receiving in Hrecv.
    destruct (state s); try discriminate.
    destruct (hume_task s); try discriminate.
    unfold receive_hume_iteration, try_except, bind, call, ret.
    rewrite Hjson, handle_hume_audio_output by assumption.
    unfold audio_output_effects, to_twilio_payload, ai_to_telephony.
    rewrite Hdata, Haudio, Hsid, Hb64. cbn [andb mbind option_bind].
    rewrite Hres. cbn [mbind option_bind]. rewrite Hulaw.
    cbn [mbind option_bind trace emitted app]. reflexivity.
  - intros c early acc pre text message media payload mulaw pcm8 pcm48 s
      Hloop Hjson Hty Hmedia Hpayload Htruthy Hb64 Hpcm Hres.
    destruct (run_looping config (mkScenario c early acc pre) Hloop)
      as (Hws & Hrun).
    fold s in Hws, Hrun.
    rewrite run_snoc. fold s. unfold step, twilio_step, twilio_iteration.
    unfold looping in Hloop. destruct (state s); try discriminate.
    unfold is_media in Hty.
    destruct message as [| | | | | |items]; try discriminate.
    cbn [field] in Hty, Hmedia, Hpayload.
    assert (default (JObj []) (dict_get items "media") = JObj media) as Hm.
    { destruct (dict_get items "media"); [exact Hmedia | discriminate]. }
    assert (to_hume_data (default JNull (dict_get media "payload"))
            = Some (b64encode pcm48)) as Hconv.
    { unfold to_hume_data, telephony_to_ai.
      rewrite Hpayload, Hb64. cbn [mbind option_bind].
      rewrite Hpcm. cbn [mbind option_bind]. rewrite Hres. reflexivity. }
    unfold try_except, bind, call, ret. rewrite Hjson.
    rewrite (handle_twilio_media items media true (bridge s) Hty Hm)
      by (right; split; [reflexivity | eexists; exact Hconv]).
    unfold media_effects. rewrite Hconv, Hpayload, Htruthy, Hws.
    cbn [andb outcome post emitted bridge trace app]. unfold loop_test.
    cbn [bridge]. rewrite Hrun. reflexivity.
Qed.

(** C5.  In a session whose [connect_hume] succeeds, the first two
    actions on the sockets are the connection to the AI service and the
    sending of the session settings, the message of type
    [session_settings] whose [audio] declares the encoding [linear16],
    the sample rate 48000 and one channel; every later message to the AI
    service is an [audio_input] message, so the session settings are sent
    exactly once and before any audio. *)
Theorem session_settings_sent_once
    (config : string) (early : list hume_recv) (acc : bool)
    (evs : list event) :
  let t := trace (run config (mkScenario (ConnectOk true) early acc evs)) in
  let settings :=
    JObj [("type", JStr "session_settings");
          ("audio", JObj [("encoding", JStr "linear16");
                          ("sample_rate", JInt 48000);
                          ("channels", JInt 1)])] in
  (exists rest,
     wire t = HumeConnect (HUME_WS_URL +:+ "?config_id=" +:+ config)
              :: HumeSend settings :: rest) /\
  (exists audio,
     hume_frames t = settings :: audio /\
     Forall (fun m => exists data,
               m = JObj [("type", JStr "audio_input"); ("data", JStr data)])
            audio) /\
  length (List.filter is_session_settings (hume_frames t)) = 1%nat.
Proof.
  cbv zeta. rewrite run_connected by reflexivity. cbn [accept_ok events].
  set (env := mkScenario (ConnectOk true) early acc evs).
  destruct (accepted_frames config env) as (_ & Hh & _ & rest & Hw).
  destruct acc.
  - destruct (loop_frames evs (accepted config env))
      as (new & -> & _ & _ & _ & Fa).
    rewrite wire_app, hume_frames_app, Hh, Hw, List.filter_app.
    destruct (audio_messages_filter _ Fa) as (_ & ->).
    repeat split.
    + eexists. rewrite <- !app_comm_cons. reflexivity.
    + exists (hume_frames new). split; [reflexivity | exact Fa].
  - destruct (finish_frames (Propagated WebSocketDisconnect)
                (accepted config env)) as (_ & -> & _ & ->).
    rewrite Hh, Hw. repeat split.
    + eexists. rewrite <- !app_comm_cons. reflexivity.
    + exists []. split; [reflexivity | constructor].
Qed.

(** C4.  Of the two openings, connecting to the AI service and accepting
    the telephony socket, a session whose [connect_hume] succeeds makes
    both, the connection first and the accept once; a session whose
    [connect_hume] fails never accepts, and [run] returns without having
    created the AI receive task. *)
Theorem accept_only_after_connect (config : string) (env : scenario) :
  let s := run config env in
  List.filter opening (trace s)
  = match connect env with
    | ConnectOk true =>
        [HumeConnect (HUME_WS_URL +:+ "?config_id=" +:+ config);
         TwilioAccept (accept_ok env)]
    | ConnectOk false =>
        [HumeConnect (HUME_WS_URL +:+ "?config_id=" +:+ config)]
    | ConnectFails => []
    end /\
  (connect env = ConnectOk true \/
   state s = Returned /\ hume_task s = NotCreated).
Proof.
  cbv zeta. destruct (connect env) as [|[|]] eqn:Hc.
  - rewrite run_not_connected, Hc by (rewrite Hc; discriminate).
    split; [reflexivity | right; split; reflexivity].
  - rewrite run_connected by assumption. split; [|left; reflexivity].
    destruct (accepted_frames config env) as (_ & _ & Ho & _).
    destruct (accept_ok env).
    + destruct (loop_frames (events env) (accepted config env))
        as (new & -> & Hnew & _).
      rewrite List.filter_app, Ho, Hnew. reflexivity.
    + destruct (finish_frames (Propagated WebSocketDisconnect)
                  (accepted config env)) as (_ & _ & -> & _).
      exact Ho.
  - rewrite run_not_connected, Hc by (rewrite Hc; discriminate).
    split; [reflexivity | right; split; reflexivity].
Qed.

(** C3, amended.  A session whose telephony loop is delivered no start
    event sends no frame on the telephony socket, and an idle timeout
    does not end it: the session with the timeouts is the session
    without them.  On the AI socket such a session does send: when
    [connect_hume] succeeds the session settings (linear16, 48000, one
    channel) go out first, and all that follows them are [audio_input]
    messages made, in receipt order, from the media events delivered;
    when [connect_hume] fails nothing is sent. *)
Theorem no_start_no_telephony_frames (config : string) (env : scenario) :
  omap start_sid (events env) = [] ->
  twilio_frames (trace (run config env)) = [] /\
  run config (without_timeouts env) = run config env /\
  exists audio,
    hume_frames (trace (run config env))
    = match connect env with
      | ConnectOk true =>
          JObj [("type", JStr "session_settings");
                ("audio", JObj [("encoding", JStr "linear16");
                                ("sample_rate", JInt 48000);
                                ("channels", JInt 1)])]
          :: audio
      | _ => []
      end /\
    in_order hume_message_of (twilio_audio_in env) audio /\
    Forall (fun m => exists data,
              m = JObj [("type", JStr "audio_input"); ("data", JStr data)])
           audio.
Proof.
  intros Hno. destruct (connect env) as [|[|]] eqn:Hc.
  - rewrite !run_not_connected by (cbn [connect without_timeouts]; rewrite Hc; discriminate).
    cbn [connect without_timeouts]. rewrite Hc.
    split; [reflexivity |]. split; [reflexivity |].
    exists []. split; [reflexivity |]. split; [apply in_order_nil | constructor].
  - rewrite !run_connected by assumption.
    change (accepted config (without_timeouts env)) with (accepted config env).
    cbn [accept_ok events without_timeouts].
    destruct (accepted_frames config env) as (Ht & Hh & _).
    destruct (accepted_spec config env) as (Hb & _).
    destruct (accept_ok env).
    + split; [|split].
      * destruct (loop_no_start (events env) (accepted config env) Hno)
          as (new & -> & Hnew); [rewrite Hb; reflexivity |].
        rewrite twilio_frames_app, Ht, Hnew. reflexivity.
      * apply loop_without_timeouts. intros _. rewrite Hb. reflexivity.
      * destruct (loop_frames (events env) (accepted config env))
          as (new & -> & _ & _ & Ih & Fa).
        exists (hume_frames new). rewrite hume_frames_app, Hh.
        split; [reflexivity |]. split; [exact Ih | exact Fa].
    + destruct (finish_frames (Propagated WebSocketDisconnect)
                  (accepted config env)) as (-> & -> & _).
      split; [exact Ht |]. split; [reflexivity |].
      exists []. rewrite Hh.
      split; [reflexivity |]. split; [apply in_order_nil | constructor].
  - rewrite !run_not_connected by (cbn [connect without_timeouts]; rewrite Hc; discriminate).
    cbn [connect without_timeouts]. rewrite Hc.
    split; [reflexivity |]. split; [reflexivity |].
    exists []. split; [reflexivity |]. split; [apply in_order_nil | constructor].
Qed.


End Claims.

(** * The claims on the executable library *)

Section Concrete.
#[local] Existing Instance CPython.lib.
Import Wire.

(** C7.  Every buffer of mu-law bytes converts to 48 kHz linear PCM and
    back: the 48 kHz buffer holds [6 n - 5] frames of two bytes for [n]
    bytes (none for the empty buffer), the buffer that comes back is the
    original one requantised byte by byte, so it has the original length,
    and a buffer of zero bytes comes back as it was. *)
Theorem codec_round_trip (b : bytes) (n : nat) :
  (exists pcm48,
     telephony_to_ai b = Some pcm48 /\
     length pcm48 = (12 * length b - 10)%nat /\
     ai_to_telephony pcm48 = Some (map requantise b) /\
     length (map requantise b) = length b) /\
  round_trip (repeat x00 n) = Some (repeat x00 n).
Proof.
  assert (forall us, round_trip us = Some (map requantise us) /\
            exists pcm48,
              telephony_to_ai us = Some pcm48 /\
              length pcm48 = (12 * length us - 10)%nat /\
              ai_to_telephony pcm48 = Some (map requantise us)) as Hrt.
  { intros [|u us].
    - split; [reflexivity |]. exists []. repeat split.
    - assert (telephony_to_ai (u :: us)
              = Some (Resampled.frame u
                        ++ Resampled.up_rest (Resampled.sample32 u) us)) as Hup.
      { unfold telephony_to_ai, ulaw_to_pcm, resample.
        cbn [ulaw2lin ratecv CPython.lib].
        rewrite CodecFacts.ulaw2lin_frames. cbn [mbind option_bind].
        apply CodecFacts.ratecv_up. }
      assert (ai_to_telephony
                (Resampled.frame u
                   ++ Resampled.up_rest (Resampled.sample32 u) us)
              = Some (map requantise (u :: us))) as Hdown.
      { unfold ai_to_telephony, pcm_to_ulaw, resample.
        cbn [lin2ulaw ratecv CPython.lib].
        rewrite CodecFacts.ratecv_down. cbn [mbind option_bind].
        apply CodecFacts.lin2ulaw_frames. }
      split.
      + unfold round_trip. rewrite Hup. exact Hdown.
      + eexists. split; [exact Hup |]. split; [|exact Hdown].
        rewrite length_app, CodecFacts.length_up_rest.
        unfold Resampled.frame, CPython.SETSAMPLE32, CPython.SETINT16.
        cbn [length]. lia. }
  split.
  - destruct (Hrt b) as (_ & pcm48 & H1 & H2 & H3).
    exists pcm48. repeat split; try assumption. apply length_map.
  - destruct (Hrt (repeat x00 n)) as (-> & _).
    rewrite CodecFacts.map_requantise_zero. reflexivity.
Qed.

(** C6.  A telephony media event whose payload is not base64 ends the
    session: the error is logged, the loop is left and the media event
    that follows is never forwarded.  The same failure in the other
    direction is logged and skipped, and the [audio_output] message that
    follows is forwarded. *)
Theorem telephony_conversion_error_ends_session :
  state bad_media_call = Returned /\
  trace bad_media_call
  = connected "cfg"
    ++ [TwilioAccept true; Log INFO (CallStarted (JStr "CA1"));
        Log ERROR LoopError; HumeTaskCancel; HumeClose] /\
  state bad_audio_output_call = Looping /\
  hume_task bad_audio_output_call = TaskRunning /\
  trace bad_audio_output_call
  = connected "cfg"
    ++ [TwilioAccept true; Log INFO (CallStarted (JStr "CA1"));
        Log ERROR AudioConversionError;
        TwilioSend (twilio_message (JStr "MZ1") "/w==")].
Proof. vm_compute. repeat split. Qed.

(** C9.  Before any start event, [handle_twilio_message] raises on a
    media event whose payload is not base64, and the session does not
    handle the start event that follows. *)
Theorem media_before_start_can_raise :
  json_loads bad_media = Some bad_media_message /\
  is_media bad_media_message = true /\
  stream_sid ready = JNull /\
  handle_twilio_message bad_media_message true ready
  = Res (inl BinasciiError) ready [] /\
  state bad_media_before_start = Returned /\
  stream_sid (bridge bad_media_before_start) = JNull /\
  trace bad_media_before_start
  = connected "cfg"
    ++ [TwilioAccept true; Log ERROR LoopError; HumeTaskCancel; HumeClose].
Proof. vm_compute. repeat split. Qed.


(** C3, as stated, fails: after an idle timeout with no start event the
    session is still in its loop, and the session settings have gone out
    on the AI socket. *)
Lemma idle_timeout_counterexample :
  omap start_sid idle = [] /\
  state (session_of idle) = Looping /\
  hume_frames (trace (session_of idle)) = [session_settings].
Proof. vm_compute. repeat split. Qed.

(** C8, as stated, fails: an [audio_output] message received before any
    start event is one input frame that converts, and no frame is
    forwarded for it. *)
Lemma one_frame_per_input_counterexample :
  hume_audio_in (call audio_before_start) = [JStr "AAAAAAAAAAAAAAAA"] /\
  to_twilio_payload (JStr "AAAAAAAAAAAAAAAA") = Some "/w==" /\
  twilio_frames (trace (session_of audio_before_start)) = [].
Proof. vm_compute. repeat split. Qed.

(** A whole call: start, AI audio, telephony audio, stop. *)
Example whole_call_trace :
  state (session_of whole_call) = Returned /\
  hume_task (session_of whole_call) = TaskCancelled /\
  trace (session_of whole_call)
  = connected "cfg"
    ++ [TwilioAccept true;
        Log INFO (CallStarted (JStr "CA1"));
        TwilioSend (twilio_message (JStr "MZ1") "/w==");
        HumeSend (audio_message "hIKEgoSChIKEgoSChIKEgoSChIKEgoSChII=");
        Log INFO (CallEnded (JStr "CA1"));
        HumeTaskCancel; HumeClose].
Proof. vm_compute. repeat split. Qed.

(** The hypothesis of C1 holds of an [audio_output] message handled in
    the middle of a call. *)
Lemma audio_output_needs_stream_sid_witness :
  is_audio_output audio_output_message = true /\
  outcome (handle_hume_message audio_output_message true in_call) = inr tt /\
  post (handle_hume_message audio_output_message true in_call) = in_call /\
  (length (twilio_frames
             (emitted (handle_hume_message audio_output_message true in_call)))
   <= if truthy (stream_sid in_call) then 1 else 0)%nat /\
  Forall (fun frame =>
            frame_sid frame = stream_sid in_call /\
            truthy (frame_sid frame) = true)
         (twilio_frames
            (emitted (handle_hume_message audio_output_message true in_call))) /\
  Forall (fun frame => truthy (frame_sid frame) = true)
         (twilio_frames (trace (run "cfg" (call whole_call)))).
Proof.
  split; [reflexivity |].
  apply (audio_output_needs_stream_sid in_call audio_output_message true
           "cfg" (call whole_call)).
  reflexivity.
Defined.


(** The hypothesis of the amended C3 holds of a session with timeouts,
    a media event and AI audio, and no start event. *)
Lemma no_start_no_telephony_frames_witness :
  omap start_sid (events (call no_start)) = [] /\
  twilio_frames (trace (run "cfg" (call no_start))) = [] /\
  run "cfg" (without_timeouts (call no_start)) = run "cfg" (call no_start) /\
  exists audio,
    hume_frames (trace (run "cfg" (call no_start)))
    = match connect (call no_start) with
      | ConnectOk true =>
          JObj [("type", JStr "session_settings");
                ("audio", JObj [("encoding", JStr "linear16");
                                ("sample_rate", JInt 48000);
                                ("channels", JInt 1)])]
          :: audio
      | _ => []
      end /\
    in_order hume_message_of (twilio_audio_in (call no_start)) audio /\
    Forall (fun m => exists data,
              m = JObj [("type", JStr "audio_input"); ("data", JStr data)])
           audio.
Proof.
  split; [reflexivity |].
  apply (no_start_no_telephony_frames "cfg" (call no_start)). reflexivity.
Defined.

(** The hypotheses of the amended C8 hold after a start event: the AI
    audio and the telephony audio delivered next are each forwarded as
    one frame. *)
Lemma frames_forwarded_in_order_witness :
  trace (session_of (after_start ++ [FromHume (HuMessage audio_output true)]))
  = trace (session_of after_start)
    ++ [TwilioSend
          (JObj [("event", JStr "media");
                 ("streamSid", JStr "MZ1");
                 ("media", JObj [("payload", JStr "/w==")])])] /\
  trace (session_of (after_start ++ [FromTwilio (TwText media true)]))
  = trace (session_of after_start)
    ++ [HumeSend
          (JObj [("type", JStr "audio_input");
                 ("data", JStr "hIKEgoSChIKEgoSChIKEgoSChIKEgoSChII=")])].
Proof.
  destruct (frames_forwarded_in_order "cfg" (call whole_call))
    as (_ & _ & Hai & Htel).
  split.
  - refine (Hai (ConnectOk true) [] true after_start audio_output
             audio_output_message "AAAAAAAAAAAAAAAA"
             (default [] (b64decode "AAAAAAAAAAAAAAAA"))
             (default [] (b64decode "AAAAAAAAAAAAAAAA"
                            ≫= fun pcm => resample pcm 48000 8000))
             (default [] (b64decode "AAAAAAAAAAAAAAAA" ≫= ai_to_telephony))
             _ _ _ _ _ _ _ _ _ _);
      reflexivity.
  - refine (Htel (ConnectOk true) [] true after_start media
             media_message [("payload", JStr "AAAA")] "AAAA"
             (default [] (b64decode "AAAA"))
             (default [] (b64decode "AAAA" ≫= ulaw_to_pcm))
             (default [] (b64decode "AAAA" ≫= telephony_to_ai))
             _ _ _ _ _ _ _ _ _);
      reflexivity.
Defined.

End Concrete.

(** * More of the module *)

(** ** Sessions *)

Lemma closing_wire (t : list effect) :
  List.filter is_closing t = List.filter is_closing (wire t).
Proof.
  induction t as [|e t IH]; [reflexivity |].
  destruct e; cbn; rewrite ?IH; reflexivity.
Qed.

Lemma closing_hume_send (l : list json) :
  List.filter is_closing (map HumeSend l) = [].
Proof. induction l; [reflexivity | assumption]. Qed.

Lemma closing_twilio_send (l : list json) :
  List.filter is_closing (map TwilioSend l) = [].
Proof. induction l; [reflexivity | assumption]. Qed.

Section SessionExtras.
Context `{PyLib}.

(** One delivery either keeps [run] in its loop or makes it leave through
    the [finally] block. *)
Lemma step_closing (s : session) (e : event) :
  looping s = true ->
  hume_ws (bridge s) = true ->
  (_running (bridge s) = true) ->
  exists new,
    List.filter is_closing new = [] /\
    (looping (step s e) = true /\
     hume_ws (bridge (step s e)) = true /\
     _running (bridge (step s e)) = true /\
     trace (step s e) = trace s ++ new
     \/
     (state (step s e) = Returned) /\
     trace (step s e) = trace s ++ new ++ [HumeTaskCancel; HumeClose]).
Proof.
  intros Hloop Hws Hrun. unfold step, looping in *.
  destruct (state s) eqn:Hst; try discriminate.
  destruct e as [r|r].
  - unfold twilio_step, loop_test.
    pose proof (twilio_iteration_spec r (bridge s))
      as (Ho & _ & Hw & _ & _ & _ & Hwire).
    set (res := twilio_iteration r (bridge s)) in *.
    exists (emitted res). split.
    { rewrite closing_wire, Hwire. apply closing_hume_send. }
    assert (forall s', trace s' = trace s ++ emitted res ->
                       hume_ws (bridge s') = true ->
                       state (finish Returned s') = Returned /\
                       trace (finish Returned s')
                       = trace s ++ emitted res ++ [HumeTaskCancel; HumeClose])
      as Hfin.
    { intros s' Htr Hws'. destruct (finish_spec Returned s') as (_ & -> & ->).
      split; [reflexivity |]. unfold closing.
      rewrite Htr, Hws', app_assoc. reflexivity. }
    destruct Ho as [-> | ->].
    + cbn [bridge]. destruct (_running (post res)) eqn:Hr.
      * left. cbn [state bridge trace]. rewrite Hst, Hw, Hws. tauto.
      * right. apply Hfin; cbn [trace bridge]; congruence.
    + right. apply Hfin; cbn [trace bridge]; congruence.
  - destruct (hume_step_spec s r) as (Hb & Hs & new & Htr & _ & _ & Hw).
    exists new. split.
    { rewrite closing_wire, Hw. apply closing_twilio_send. }
    left. rewrite Hs, Hst, Hb. tauto.
Qed.

Lemma loop_closing (evs : list event) (s : session) :
  looping s = true ->
  hume_ws (bridge s) = true ->
  _running (bridge s) = true ->
  exists new,
    List.filter is_closing new = [] /\
    (looping (fold_left step evs s) = true /\
     hume_ws (bridge (fold_left step evs s)) = true /\
     _running (bridge (fold_left step evs s)) = true /\
     trace (fold_left step evs s) = trace s ++ new
     \/
     state (fold_left step evs s) = Returned /\
     trace (fold_left step evs s) = trace s ++ new ++ [HumeTaskCancel; HumeClose]).
Proof.
  revert s. induction evs as [|e evs IH]; intros s Hloop Hws Hrun.
  - exists []. split; [reflexivity |]. left. rewrite app_nil_r. tauto.
  - cbn [fold_left].
    destruct (step_closing s e Hloop Hws Hrun)
      as (new1 & Hc1 & [(Hl & Hw & Hr & Htr) | (Hst & Htr)]).
    + destruct (IH (step s e) Hl Hw Hr)
        as (new2 & Hc2 & [(Hl2 & Hw2 & Hr2 & Htr2) | (Hst2 & Htr2)]).
      * exists (new1 ++ new2). rewrite List.filter_app, Hc1, Hc2.
        split; [reflexivity |]. left. rewrite Htr2, Htr, app_assoc. tauto.
      * exists (new1 ++ new2). rewrite List.filter_app, Hc1, Hc2.
        split; [reflexivity |]. right. rewrite Htr2, Htr, <- !app_assoc. tauto.
    + exists new1. split; [exact Hc1 |]. right.
      rewrite loop_stopped by (unfold looping; rewrite Hst; reflexivity).
      tauto.
Qed.

Lemma accepted_closing (config : string) (env : scenario) :
  List.filter is_closing (trace (accepted config env)) = [].
Proof.
  destruct (accepted_spec config env) as (_ & _ & log & -> & Hlog).
  rewrite !List.filter_app, (closing_wire log), Hlog. reflexivity.
Qed.

(** The loop of [run] is left through the [finally] block only, and that
    block stops the AI receive task. *)
Lemma step_task (s : session) (e : event) :
  looping s = true -> looping (step s e) = false ->
  receiving (step s e) = false.
Proof.
  unfold step, looping, receiving.
  destruct (state s) eqn:Hst; try discriminate. intros _.
  destruct e as [r|r].
  - unfold twilio_step, loop_test.
    destruct (outcome (twilio_iteration r (bridge s))) as [ex|[|]];
      cbn [bridge].
    + intros _. unfold finish. cbn [hume_task]. destruct (hume_task s); reflexivity.
    + destruct (_running (post (twilio_iteration r (bridge s)))).
      * cbn [state]. rewrite Hst. discriminate.
      * intros _. unfold finish. cbn [hume_task].
        destruct (hume_task s); reflexivity.
    + intros _. unfold finish. cbn [hume_task]. destruct (hume_task s); reflexivity.
  - destruct (hume_step_spec s r) as (_ & -> & _). rewrite Hst. discriminate.
Qed.

Lemma loop_task (evs : list event) (s : session) :
  looping s = true -> looping (fold_left step evs s) = false ->
  receiving (fold_left step evs s) = false.
Proof.
  revert s. induction evs as [|e evs IH]; intros s Hloop;
    [cbn [fold_left]; congruence |].
  cbn [fold_left]. destruct (looping (step s e)) eqn:Hstep.
  - apply IH. exact Hstep.
  - rewrite loop_stopped by assumption. intros _.
    apply step_task; assumption.
Qed.

(** Once created, the AI receive task stays created. *)
Lemma hume_step_created (s : session) (r : hume_recv) :
  hume_task s <> NotCreated -> hume_task (hume_step s r) <> NotCreated.
Proof.
  unfold hume_step. destruct (hume_task s) eqn:Ht; rewrite ?Ht; try congruence.
  cbn [hume_task].
  destruct (outcome (receive_hume_iteration r (bridge s))) as [ex|[|]];
    discriminate.
Qed.

Lemma early_created (rs : list hume_recv) (s : session) :
  hume_task s <> NotCreated ->
  hume_task (fold_left hume_step rs s) <> NotCreated.
Proof.
  revert s. induction rs as [|r rs IH]; intros s Hs; [exact Hs |].
  cbn [fold_left]. apply IH. apply hume_step_created. exact Hs.
Qed.

Lemma finish_created (st : status) (s : session) :
  hume_task s <> NotCreated -> hume_task (finish st s) <> NotCreated.
Proof.
  unfold finish. cbn [hume_task]. destruct (hume_task s); congruence.
Qed.

Lemma loop_created (evs : list event) (s : session) :
  hume_task s <> NotCreated ->
  hume_task (fold_left step evs s) <> NotCreated.
Proof.
  revert s. induction evs as [|e evs IH]; intros s Hs; [exact Hs |].
  cbn [fold_left]. apply IH. unfold step.
  destruct (state s); try exact Hs. destruct e as [r|r].
  - unfold twilio_step, loop_test.
    destruct (outcome (twilio_iteration r (bridge s))) as [ex|[|]];
      cbn [bridge]; try destruct (_running _);
      try (apply finish_created); exact Hs.
  - apply hume_step_created. exact Hs.
Qed.

(** X1.  When [run] has left, the AI receive task is not running any
    more: it was never created when [connect_hume] failed, and otherwise
    it has ended by itself or the [finally] block has cancelled it.  So
    the receive loop takes nothing the AI socket delivers after [run] has
    left. *)
Theorem receive_task_stopped_with_run
    (config : string) (env : scenario) (r : hume_recv) :
  let s := run config env in
  looping s = false ->
  match connect env with
  | ConnectOk true => hume_task s = TaskCancelled \/ hume_task s = TaskFinished
  | _ => hume_task s = NotCreated
  end /\
  hume_step s r = s.
Proof.
  cbv zeta. intros Hstop.
  assert (receiving (run config env) = false ->
          hume_step (run config env) r = run config env) as Hidle.
  { unfold receiving, hume_step.
    destruct (hume_task (run config env)); discriminate || reflexivity. }
  assert (forall s, receiving s = false -> hume_task s <> NotCreated ->
                    hume_task s = TaskCancelled \/ hume_task s = TaskFinished)
    as Hended.
  { intros s. unfold receiving.
    destruct (hume_task s); try discriminate; try congruence; auto. }
  destruct (connect env) as [|[|]] eqn:Hc.
  - rewrite run_not_connected in * by (rewrite Hc; discriminate).
    split; reflexivity.
  - rewrite run_connected in * by assumption.
    destruct (accepted_spec config env) as (_ & Hst & _).
    assert (hume_task (accepted config env) <> NotCreated) as Hacc.
    { unfold accepted. cbn [hume_task]. apply early_created. discriminate. }
    destruct (accept_ok env).
    + assert (receiving (fold_left step (events env) (accepted config env))
              = false) as Hrecv.
      { apply loop_task; [|exact Hstop]. unfold looping. rewrite Hst. reflexivity. }
      split; [|apply Hidle; exact Hrecv].
      apply Hended; [exact Hrecv | apply loop_created; exact Hacc].
    + assert (receiving (finish (Propagated WebSocketDisconnect)
                           (accepted config env)) = false) as Hrecv.
      { unfold finish, receiving. cbn [hume_task].
        destruct (hume_task (accepted config env)); reflexivity. }
      split; [|apply Hidle; exact Hrecv].
      apply Hended; [exact Hrecv | apply finish_created; exact Hacc].
  - rewrite run_not_connected in * by (rewrite Hc; discriminate).
    split; reflexivity.
Qed.

(** X2.  A session whose [connect_hume] succeeded cancels the AI receive
    task and closes the AI socket exactly once, as its last two actions,
    when [run] leaves; as long as [run] is in its loop it has done
    neither. *)
Theorem teardown_exactly_once
    (config : string) (early : list hume_recv) (acc : bool)
    (evs : list event) :
  let s := run config (mkScenario (ConnectOk true) early acc evs) in
  exists t,
    List.filter is_closing t = [] /\
    trace s = t ++ (if looping s then [] else [HumeTaskCancel; HumeClose]).
Proof.
  cbv zeta. rewrite run_connected by reflexivity. cbn [accept_ok events].
  set (env := mkScenario (ConnectOk true) early acc evs).
  pose proof (accepted_closing config env) as Hacc.
  destruct (accepted_spec config env) as (Hb & Hst & _).
  destruct acc.
  - destruct (loop_closing evs (accepted config env))
      as (new & Hnew & [(Hl & _ & _ & Htr) | (Hret & Htr)]).
    + unfold looping. rewrite Hst. reflexivity.
    + rewrite Hb. reflexivity.
    + rewrite Hb. reflexivity.
    + exists (trace (accepted config env) ++ new). split.
      * rewrite List.filter_app, Hacc, Hnew. reflexivity.
      * rewrite Hl, app_nil_r. exact Htr.
    + exists (trace (accepted config env) ++ new). split.
      * rewrite List.filter_app, Hacc, Hnew. reflexivity.
      * unfold looping. rewrite Hret, Htr, app_assoc. reflexivity.
  - destruct (finish_spec (Propagated WebSocketDisconnect)
                (accepted config env)) as (_ & Hs & Htr).
    exists (trace (accepted config env)). split; [exact Hacc |].
    unfold looping. rewrite Hs, Htr, Hb. reflexivity.
Qed.

Lemma loop_config (evs : list event) (s : session) :
  config_id (bridge (fold_left step evs s)) = config_id (bridge s).
Proof.
  revert s. induction evs as [|e evs IH]; intros s; [reflexivity |].
  cbn [fold_left]. rewrite IH. apply step_spec.
Qed.

(** X3.  [config_id] is the one given at construction for the whole
    session, and while [run] is in its loop [_running] is set and the AI
    connection is stored in [hume_ws]. *)
Theorem session_invariants (config : string) (env : scenario) :
  let s := run config env in
  config_id (bridge s) = config /\
  if looping s
  then _running (bridge s) = true /\ hume_ws (bridge s) = true
  else True.
Proof.
  cbv zeta. destruct (connect env) as [|[|]] eqn:Hc.
  - rewrite run_not_connected, connect_hume_init, Hc by (rewrite Hc; discriminate).
    split; [reflexivity | exact I].
  - rewrite run_connected by assumption.
    destruct (accepted_spec config env) as (Hb & Hst & _).
    destruct (accept_ok env).
    + rewrite loop_config, Hb. split; [reflexivity |].
      destruct (loop_closing (events env) (accepted config env))
        as (new & _ & [(Hl & Hw & Hr & _) | (Hret & _)]);
        try (rewrite Hb; reflexivity).
      * unfold looping. rewrite Hst. reflexivity.
      * rewrite Hl. split; assumption.
      * unfold looping. rewrite Hret. exact I.
    + destruct (finish_spec (Propagated WebSocketDisconnect)
                  (accepted config env)) as (Hfb & Hfs & _).
      unfold looping. rewrite Hfb, Hfs, Hb. split; [reflexivity | exact I].
  - rewrite run_not_connected, connect_hume_init, Hc by (rewrite Hc; discriminate).
    split; [reflexivity | exact I].
Qed.

(** X4.  When the telephony socket is accepted [run] never raises: every
    exception of its loop is caught, so a session is either still in the
    loop or has returned. *)
Theorem run_never_raises_after_accept
    (config : string) (c : connect_outcome) (early : list hume_recv)
    (evs : list event) :
  let s := run config (mkScenario c early true evs) in
  state s = Looping \/ state s = Returned.
Proof.
  cbv zeta. destruct c as [|[|]].
  - rewrite run_not_connected by discriminate. right. reflexivity.
  - rewrite run_connected by reflexivity. cbn [accept_ok events].
    set (env := mkScenario (ConnectOk true) early true evs).
    destruct (accepted_spec config env) as (Hb & Hst & _).
    destruct (loop_closing evs (accepted config env))
      as (new & _ & [(Hl & _) | (Hret & _)]);
      try (rewrite Hb; reflexivity).
    + unfold looping. rewrite Hst. reflexivity.
    + left. unfold looping in Hl.
      destruct (state (fold_left step evs (accepted config env)));
        try discriminate. reflexivity.
    + right. exact Hret.
  - rewrite run_not_connected by discriminate. right. reflexivity.
Qed.

(** X5.  When the connection to the AI service is made but the session
    settings cannot be sent, [run] returns without accepting the
    telephony socket and without closing the AI connection it holds in
    [hume_ws]: the connection is the only action on a socket. *)
Theorem failed_settings_leave_connection_open
    (config : string) (early : list hume_recv) (acc : bool)
    (evs : list event) :
  let s := run config (mkScenario (ConnectOk false) early acc evs) in
  state s = Returned /\
  hume_ws (bridge s) = true /\
  wire (trace s) = [HumeConnect (HUME_WS_URL +:+ "?config_id=" +:+ config)].
Proof.
  cbv zeta. rewrite run_not_connected, connect_hume_init by discriminate.
  repeat split.
Qed.

Lemma receive_hume_iteration_returns (r : hume_recv) (b : Bridge) :
  exists continue, outcome (receive_hume_iteration r b) = inr continue.
Proof.
  unfold receive_hume_iteration, try_except, bind, call, logger, emit, ret,
    raise.
  destruct r as [text ok| |]; cbn; eauto.
  destruct (json_loads text) as [message|]; cbn; eauto.
  destruct (handle_hume_message message ok b) as [[e|[]] b' out]; cbn; eauto.
  destruct e; cbn; eauto.
Qed.

(** X6.  [receive_hume_messages] never raises, whatever the AI socket
    delivers; it leaves the bridge as it was, sends nothing to the AI
    service, and every telephony frame it sends carries the [stream_sid]
    of the bridge. *)
Theorem receive_loop_never_raises (inbox : list hume_recv) (b : Bridge) :
  let r := receive_hume_messages inbox b in
  outcome r = inr tt /\
  post r = b /\
  hume_frames (emitted r) = [] /\
  Forall (fun frame => frame_sid frame = stream_sid b)
         (twilio_frames (emitted r)).
Proof.
  cbv zeta. induction inbox as [|r inbox IH]; [repeat split; constructor |].
  cbn [receive_hume_messages]. unfold bind.
  destruct (receive_hume_iteration_returns r b) as (continue & Ho).
  pose proof (receive_hume_iteration_spec r b) as (Hp & Hh & Ht & _).
  destruct (receive_hume_iteration r b) as [o b' out].
  cbn [outcome post emitted] in *. subst o b'.
  assert (Forall (fun frame => frame_sid frame = stream_sid b)
                 (twilio_frames out)) as Hout.
  { rewrite Ht. eapply Forall_impl; [apply hume_out_sid |].
    cbn beta. intros frame [Hf _]. exact Hf. }
  destruct continue.
  - destruct IH as (Io & Ip & Ih & It).
    destruct (receive_hume_messages inbox b) as [o b' out'].
    cbn [outcome post emitted] in *. subst o b'.
    rewrite hume_frames_app, twilio_frames_app, Hh, Ih.
    repeat split. apply Forall_app. split; assumption.
  - cbn. rewrite app_nil_r. repeat split; assumption.
Qed.

End SessionExtras.

(** ** Handlers *)

Lemma py_eq_str_other (v : json) (a b : string) :
  py_eq_str v a = true -> String.eqb a b = false -> py_eq_str v b = false.
Proof.
  destruct v; try discriminate. unfold py_eq_str.
  intros Ha Hab. apply String.eqb_eq in Ha. subst. exact Hab.
Qed.

Section HandlerExtras.
Context `{PyLib}.

(** X7.  A stop event handled in the loop logs the end of the call with
    the current [call_sid], clears [_running] and ends the session: the
    loop is left and the [finally] block runs. *)
Theorem stop_ends_session
    (s : session) (data : string) (message : json) (send_ok : bool) :
  state s = Looping ->
  json_loads data = Some message ->
  is_stop message = true ->
  step s (FromTwilio (TwText data send_ok))
  = {| bridge := set_running false (bridge s);
       hume_task := cancelled (hume_task s);
       state := Returned;
       trace := trace s
                ++ Log INFO (CallEnded (call_sid (bridge s)))
                   :: closing (bridge s) |}.
Proof.
  intros Hst Hjson Hstop. unfold is_stop, field in Hstop.
  destruct message as [| | | | | |items]; try discriminate.
  pose proof (py_eq_str_other _ "stop" "start" Hstop eq_refl) as Hns.
  pose proof (py_eq_str_other _ "stop" "media" Hstop eq_refl) as Hnm.
  unfold step, twilio_step, twilio_iteration. rewrite Hst.
  io_unfold. rewrite Hjson. cbn. rewrite Hns, Hnm, Hstop. cbn.
  unfold loop_test, finish. cbn [bridge _running set_running].
  rewrite teardown_spec. cbn. rewrite <- app_assoc.
  destruct (hume_task s); reflexivity.
Qed.

(** X8.  A telephony socket that disconnects, and a telephony text that
    is JSON but not an object, end the session the same way: the error is
    logged, the loop is left and the [finally] block runs, the bridge as
    it was. *)
Theorem telephony_failure_ends_session (s : session) (r : twilio_recv) :
  state s = Looping ->
  r = TwDisconnect \/
  (exists data send_ok message,
     r = TwText data send_ok /\
     json_loads data = Some message /\ is_dict message = false) ->
  step s (FromTwilio r)
  = {| bridge := bridge s;
       hume_task := cancelled (hume_task s);
       state := Returned;
       trace := trace s ++ Log ERROR LoopError :: closing (bridge s) |}.
Proof.
  intros Hst Hr. unfold step, twilio_step, twilio_iteration. rewrite Hst.
  assert (forall b', b' = bridge s ->
            finish Returned
              {| bridge := b'; hume_task := hume_task s; state := Looping;
                 trace := trace s ++ [] ++ [Log ERROR LoopError] |}
            = {| bridge := bridge s; hume_task := cancelled (hume_task s);
                 state := Returned;
                 trace := trace s ++ Log ERROR LoopError :: closing (bridge s) |})
    as Hfin.
  { intros b' ->. unfold finish. rewrite teardown_spec. cbn.
    rewrite <- app_assoc. destruct (hume_task s); reflexivity. }
  destruct Hr as [-> | (data & send_ok & message & -> & Hjson & Hdict)].
  - io_unfold. cbn. apply Hfin. reflexivity.
  - io_unfold. rewrite Hjson.
    destruct message; try discriminate; cbn; apply Hfin; reflexivity.
Qed.

(** X9.  The end of the AI receive loop does not end the session: when
    the AI socket closes, or delivers JSON that is not an object, the
    receive task finishes (a closure with an error and the bad message
    are logged) while [run] stays in its loop with the bridge as it was;
    whatever the AI socket delivers afterwards is not taken. *)
Theorem hume_loop_end_keeps_session
    (s : session) (r later : hume_recv) (log : list effect) :
  state s = Looping ->
  hume_task s = TaskRunning ->
  r = HuClosedOK /\ log = [] \/
  r = HuClosedError /\ log = [Log INFO HumeConnectionClosed] \/
  (exists data send_ok message,
     r = HuMessage data send_ok /\
     json_loads data = Some message /\ is_dict message = false /\
     log = [Log ERROR ErrorReceivingFromHume]) ->
  let s' := {| bridge := bridge s; hume_task := TaskFinished;
               state := Looping; trace := trace s ++ log |} in
  step s (FromHume r) = s' /\ step s' (FromHume later) = s'.
Proof.
  intros Hst Htask Hr. cbv zeta. split; [|reflexivity].
  unfold step, hume_step, receive_hume_iteration. rewrite Hst, Htask.
  destruct Hr as [(-> & ->) | [(-> & ->) |
    (data & send_ok & message & -> & Hjson & Hdict & ->)]].
  - io_unfold. cbn. rewrite app_nil_r. reflexivity.
  - io_unfold. reflexivity.
  - io_unfold. rewrite Hjson.
    destruct message; try discriminate; reflexivity.
Qed.

(** X10.  An AI message that is not an [audio_output] message never
    touches a socket or the bridge: whatever it is, handling it writes at
    most log records. *)
Theorem informational_messages_send_nothing
    (message : json) (send_ok : bool) (b : Bridge) :
  is_audio_output message = false ->
  post (handle_hume_message message send_ok b) = b /\
  wire (emitted (handle_hume_message message send_ok b)) = [].
Proof.
  intros Hty. split; [apply handle_hume_message_post |].
  pose proof (handle_hume_wire message send_ok b) as Hw. cbv zeta in Hw.
  rewrite Hw, handle_hume_twilio_frames, Hty. reflexivity.
Qed.

(** X11.  An AI message object that is neither audio nor a transcript is
    handled without an exception: an interruption leaves one log record
    at level INFO, an [error] event one record with its message and code
    at level ERROR, and any other type leaves nothing, its record being
    of level DEBUG, below the level the module logs at.  An [error]
    event is not fatal. *)
Theorem plain_events_only_log
    (message : json) (send_ok : bool) (b : Bridge) :
  is_dict message = true ->
  is_audio_output message = false ->
  py_eq_str (field message "type") "user_message" = false ->
  py_eq_str (field message "type") "assistant_message" = false ->
  handle_hume_message message send_ok b
  = Res (inr tt) b
        (if py_eq_str (field message "type") "user_interruption"
         then [Log INFO UserInterrupted]
         else if py_eq_str (field message "type") "error"
         then [Log ERROR (HumeError (field message "message")
                                    (field message "code"))]
         else []).
Proof.
  unfold is_audio_output, field.
  destruct message as [| | | | | |items]; try discriminate.
  intros _ Ha Hu Hs. io_unfold. cbn. rewrite Ha, Hu, Hs.
  destruct (py_eq_str (default JNull (dict_get items "type"))
              "user_interruption"); [reflexivity |].
  destruct (py_eq_str (default JNull (dict_get items "type")) "error");
    reflexivity.
Qed.

(** X12.  A transcript message ([user_message] or [assistant_message]) is
    logged with the [content] of its [message] field when that field is
    absent or an object; when the field holds anything else the handler
    raises [AttributeError].  Nothing is sent either way. *)
Theorem transcript_message
    (message : json) (send_ok : bool) (b : Bridge) :
  py_eq_str (field message "type") "user_message" = true \/
  py_eq_str (field message "type") "assistant_message" = true ->
  handle_hume_message message send_ok b
  = if is_dict (field_or_empty message "message")
    then Res (inr tt) b
           [Log INFO
              ((if py_eq_str (field message "type") "user_message"
                then UserSaid else SarahSaid)
                 (field (field_or_empty message "message") "content"))]
    else Res (inl AttributeError) b [].
Proof.
  unfold field, field_or_empty.
  destruct message as [| | | | | |items];
    try (intros [Hx | Hx]; discriminate).
  intros Hwho. io_unfold. cbn.
  destruct Hwho as [Hu | Ha].
  - rewrite (py_eq_str_other _ _ "audio_output" Hu eq_refl), Hu.
    destruct (default (JObj []) (dict_get items "message")); reflexivity.
  - rewrite (py_eq_str_other _ _ "audio_output" Ha eq_refl),
      (py_eq_str_other _ _ "user_message" Ha eq_refl), Ha.
    destruct (default (JObj []) (dict_get items "message")); reflexivity.
Qed.

(** X13.  A telephony message object whose event is not start, media or
    stop is ignored: no exception, no effect, the bridge as it was. *)
Theorem unknown_telephony_event_ignored
    (message : json) (send_ok : bool) (b : Bridge) :
  is_dict message = true ->
  is_start message = false ->
  is_media message = false ->
  is_stop message = false ->
  handle_twilio_message message send_ok b = Res (inr tt) b [].
Proof.
  unfold is_start, is_media, is_stop, field.
  destruct message as [| | | | | |items]; try discriminate.
  intros _ Hs Hm Ht. io_unfold. cbn. rewrite Hs, Hm, Ht. reflexivity.
Qed.

(** X14.  A start event stores its [streamSid] (or [None]) in
    [stream_sid] first.  When its [start] field is absent or an object,
    the [callSid] of that object (or [None]) is stored in [call_sid] and
    the start of the call is logged; when the field holds anything else
    the handler raises [AttributeError] with [stream_sid] already
    replaced and [call_sid] as it was. *)
Theorem start_event (message : json) (send_ok : bool) (b : Bridge) :
  is_start message = true ->
  handle_twilio_message message send_ok b
  = if is_dict (field_or_empty message "start")
    then Res (inr tt)
           (set_call_sid (field (field_or_empty message "start") "callSid")
              (set_stream_sid (field message "streamSid") b))
           [Log INFO
              (CallStarted (field (field_or_empty message "start") "callSid"))]
    else Res (inl AttributeError)
           (set_stream_sid (field message "streamSid") b) [].
Proof.
  unfold is_start, field, field_or_empty.
  destruct message as [| | | | | |items]; try discriminate.
  intros Hs. io_unfold. cbn. rewrite Hs. cbn.
  destruct (default (JObj []) (dict_get items "start")); reflexivity.
Qed.

(** X15.  A media event whose payload converts is forwarded to the AI
    service as one [audio_input] message whatever [stream_sid] is, before
    a start event as after it; the bridge is left as it was. *)
Theorem media_forwarded
    (message : json) (data : string) (b : Bridge) :
  is_media message = true ->
  is_dict (field_or_empty message "media") = true ->
  truthy (field (field_or_empty message "media") "payload") = true ->
  to_hume_data (field (field_or_empty message "media") "payload")
  = Some data ->
  hume_ws b = true ->
  handle_twilio_message message true b
  = Res (inr tt) b [HumeSend (audio_message data)].
Proof.
  unfold is_media, field_or_empty.
  destruct message as [| | | | | |items]; try discriminate.
  cbn [field]. intros Hm Hd Ht Hdata Hws.
  destruct (default (JObj []) (dict_get items "media")) as [| | | | | |media]
    eqn:Hmedia; try discriminate.
  cbn [field] in Ht, Hdata.
  rewrite (handle_twilio_media items media true b Hm Hmedia).
  - unfold media_effects. rewrite Ht, Hws, Hdata. reflexivity.
  - right. split; [reflexivity |]. exists data. exact Hdata.
Qed.

(** X16.  A send that fails is treated differently in the two
    directions: while AI audio is forwarded, the failed send to the
    telephony side is caught, logged as a conversion error and the
    handler returns; while telephony audio is forwarded, the failed send
    to the AI service raises out of the handler. *)
Theorem send_failure_asymmetry
    (ai telephony : json) (payload data : string) (b : Bridge) :
  is_audio_output ai = true ->
  truthy (field ai "data") && truthy (stream_sid b) = true ->
  to_twilio_payload (field ai "data") = Some payload ->
  is_media telephony = true ->
  is_dict (field_or_empty telephony "media") = true ->
  truthy (field (field_or_empty telephony "media") "payload") = true ->
  to_hume_data (field (field_or_empty telephony "media") "payload")
  = Some data ->
  hume_ws b = true ->
  handle_hume_message ai false b
  = Res (inr tt) b [Log ERROR AudioConversionError] /\
  handle_twilio_message telephony false b = Res (inl ConnectionClosed) b [].
Proof.
  intros Hao Hguard Hpay Hm Hd Ht Hdata Hws. split.
  - rewrite handle_hume_audio_output by assumption.
    unfold audio_output_effects. rewrite Hguard, Hpay. reflexivity.
  - unfold is_media, field_or_empty in *.
    destruct telephony as [| | | | | |items]; try discriminate.
    cbn [field] in *.
    pose proof (py_eq_str_other _ _ "start" Hm eq_refl) as Hns.
    unfold to_hume_data, telephony_to_ai in Hdata.
    io_unfold. cbn. rewrite Hns, Hm.
    destruct (default (JObj []) (dict_get items "media")) as [| | | | | |media];
      try discriminate.
    cbn in *. rewrite Ht, Hws. cbn.
    destruct (default JNull (dict_get media "payload")); try discriminate.
    cbn. destruct (b64decode s) as [mulaw|]; [|discriminate]. cbn in *.
    destruct (ulaw2lin mulaw) as [pcm|]; [|discriminate]. cbn in *.
    destruct (ratecv pcm 8000 48000) as [pcm48|]; [|discriminate].
    reflexivity.
Qed.

(** X17.  An [audio_output] message whose audio converts, handled while
    the send goes through, sends exactly one frame when [stream_sid] and
    the data are set: the frame whose [event] is [media], whose
    [streamSid] is the current [stream_sid] and whose [media] holds the
    converted audio as its [payload].  Otherwise it does nothing at all,
    not even a log record. *)
Theorem audio_output_forwarded
    (message : json) (payload : string) (b : Bridge) :
  is_audio_output message = true ->
  to_twilio_payload (field message "data") = Some payload ->
  handle_hume_message message true b
  = Res (inr tt) b
        (if truthy (field message "data") && truthy (stream_sid b)
         then [TwilioSend
                 (JObj [("event", JStr "media");
                        ("streamSid", stream_sid b);
                        ("media", JObj [("payload", JStr payload)])])]
         else []).
Proof.
  intros Hty Hpay. rewrite handle_hume_audio_output by assumption.
  unfold audio_output_effects. rewrite Hpay. reflexivity.
Qed.

(** X18.  A media event with no payload to forward (the payload absent,
    [None] or empty, or no AI connection stored) does nothing when its
    [media] field is absent or an object, and raises [AttributeError]
    when that field holds anything else. *)
Theorem media_without_payload
    (message : json) (send_ok : bool) (b : Bridge) :
  is_media message = true ->
  truthy (field (field_or_empty message "media") "payload") && hume_ws b
  = false ->
  handle_twilio_message message send_ok b
  = if is_dict (field_or_empty message "media")
    then Res (inr tt) b []
    else Res (inl AttributeError) b [].
Proof.
  unfold is_media, field_or_empty.
  destruct message as [| | | | | |items]; try discriminate.
  cbn [field]. intros Hm Hguard.
  pose proof (py_eq_str_other _ _ "start" Hm eq_refl) as Hns.
  io_unfold. cbn. rewrite Hns, Hm.
  destruct (default (JObj []) (dict_get items "media")) as [| | | | | |media];
    try reflexivity.
  cbn in *. rewrite Hguard. reflexivity.
Qed.

End HandlerExtras.

(** ** The codec on arbitrary buffers *)

Module PcmFacts.
Import CPython Resampled Pcm CodecFacts.

Lemma byte_val_range (b : byte) : 0 <= byte_val b < 256.
Proof.
  unfold byte_val. pose proof (Byte.to_N_bounded b). lia.
Qed.

Lemma byte_of_val (b : byte) (k : Z) : byte_of (byte_val b + 256 * k) = b.
Proof.
  unfold byte_of.
  replace ((byte_val b + 256 * k) mod 256) with (byte_val b).
  - unfold byte_val. rewrite N2Z.id, Byte.of_to_N. reflexivity.
  - pose proof (byte_val_range b).
    apply (Z.mod_unique _ 256 k); lia.
Qed.

(** Writing back the sample of a frame gives the frame. *)
Lemma set_get (lo hi : byte) : SETSAMPLE32 (GETSAMPLE32 lo hi) = [lo; hi].
Proof.
  unfold SETSAMPLE32, GETSAMPLE32, SETINT16.
  rewrite Z.shiftl_mul_pow2, !Z.shiftr_div_pow2 by lia.
  rewrite Z.div_mul by lia.
  unfold GETINT16.
  pose proof (byte_val_range lo) as Hlo. pose proof (byte_val_range hi) as Hhi.
  destruct (Z.ltb_spec (byte_val lo + 256 * byte_val hi) 32768) as [Hs|Hs].
  - rewrite byte_of_val.
    replace ((byte_val lo + 256 * byte_val hi) / 2 ^ 8)
      with (byte_val hi + 256 * 0)
      by (apply (Z.div_unique _ (2 ^ 8) _ (byte_val lo)); lia).
    rewrite byte_of_val. reflexivity.
  - replace (byte_val lo + 256 * byte_val hi - 65536)
      with (byte_val lo + 256 * (byte_val hi - 256)) by lia.
    rewrite byte_of_val.
    replace ((byte_val lo + 256 * (byte_val hi - 256)) / 2 ^ 8)
      with (byte_val hi + 256 * (-1))
      by (apply (Z.div_unique _ (2 ^ 8) _ (byte_val lo)); lia).
    rewrite byte_of_val. reflexivity.
Qed.

Lemma read_frame (lo hi : byte) (rest : bytes) (i o p c d : Z) :
  ratecv_read (lo :: hi :: rest) i o p c d =
  (let '(out, d') :=
     ratecv_write (Z.to_nat ((d + o) / i) + 1) i o c (GETSAMPLE32 lo hi)
                  (d + o) in
   app out <$> ratecv_read rest i o c (GETSAMPLE32 lo hi) d').
Proof. reflexivity. Qed.

(** A buffer that is not a whole number of frames is refused. *)
Lemma read_odd (frames : list frame) (x : byte) (i o p c d : Z) :
  ratecv_read (flatten frames ++ [x]) i o p c d = None.
Proof.
  revert p c d. induction frames as [|[lo hi] frames IH]; intros p c d;
    [reflexivity |].
  cbn [flatten flat_map fst snd app]. rewrite read_frame.
  destruct (ratecv_write _ _ _ _ _ _) as [out d'].
  fold (flatten frames). rewrite IH. reflexivity.
Qed.

(** 48000 to 8000 keeps the frame at phase zero and every sixth frame
    after it. *)
Lemma read_decimate (frames : list frame) (phase : nat) (p c : Z) :
  (phase <= 5)%nat ->
  ratecv_read (flatten frames) 6 1 p c (- Z.of_nat phase - 1)
  = Some (flatten (decimate phase frames)).
Proof.
  revert phase p c. induction frames as [|[lo hi] frames IH];
    intros phase p c Hphase; [reflexivity |].
  cbn [flatten flat_map fst snd app decimate]. rewrite read_frame.
  fold (flatten frames).
  destruct phase as [|phase].
  - replace (- Z.of_nat 0 - 1 + 1) with 0 by lia.
    change (Z.to_nat (0 / 6) + 1)%nat with 1%nat.
    rewrite write_step by lia. rewrite write_stop by lia.
    cbv beta iota zeta. rewrite interp_last by lia.
    rewrite set_get, app_nil_r.
    replace (0 - 6) with (- Z.of_nat 5 - 1) by lia.
    rewrite IH by lia. reflexivity.
  - rewrite write_stop by lia.
    replace (- Z.of_nat (S phase) - 1 + 1) with (- Z.of_nat phase - 1) by lia.
    rewrite IH by lia. reflexivity.
Qed.

Lemma length_flatten (frames : list frame) :
  length (flatten frames) = (2 * length frames)%nat.
Proof.
  induction frames as [|f frames IH]; [reflexivity |].
  cbn [flatten flat_map app length] in *. fold (flatten frames). lia.
Qed.

(** 8000 to 48000 after the first frame. *)
Lemma read_interpolated (frames : list frame) (p c : Z) :
  ratecv_read (flatten frames) 1 6 p c (-1) = Some (interpolated c frames).
Proof.
  revert p c. induction frames as [|[lo hi] frames IH]; intros p c;
    [reflexivity |].
  cbn [flatten flat_map fst snd app interpolated]. rewrite read_frame.
  fold (flatten frames).
  change (Z.to_nat ((-1 + 6) / 1) + 1)%nat with 6%nat.
  change (-1 + 6) with 5.
  rewrite write_up, IH, set_get. cbn [fmap option_fmap option_map].
  unfold sample. cbn [fst snd]. rewrite <- !app_assoc. reflexivity.
Qed.

(** 48000 to 8000 on what 8000 to 48000 wrote after the first frame. *)
Lemma read_interpolated_back (frames : list frame) (c p0 c0 : Z) :
  ratecv_read (interpolated c frames) 6 1 p0 c0 (-6) = Some (flatten frames).
Proof.
  revert c p0 c0. induction frames as [|[lo hi] frames IH]; intros c p0 c0;
    [reflexivity |].
  cbn [interpolated fst snd]. unfold interp.
  do 5 (rewrite read_skip by lia).
  replace (-6 + 1 + 1 + 1 + 1 + 1) with (-1) by lia.
  cbn [app]. rewrite read_frame.
  change (Z.to_nat ((-1 + 1) / 6) + 1)%nat with 1%nat.
  change (-1 + 1) with 0.
  rewrite write_step by lia. rewrite write_stop by lia.
  cbv beta iota zeta. rewrite interp_last by lia.
  rewrite set_get, app_nil_r. change (0 - 6) with (-6).
  unfold sample. cbn [fst snd]. rewrite IH. reflexivity.
Qed.

Lemma length_interpolated (c : Z) (frames : list frame) :
  length (interpolated c frames) = (12 * length frames)%nat.
Proof.
  revert c. induction frames as [|f frames IH]; intros c; [reflexivity |].
  cbn [interpolated]. rewrite !length_app, IH. cbn. lia.
Qed.

(** Every buffer is a run of whole frames, or one with a byte left
    over. *)
Lemma frames_or_odd (b : bytes) :
  (exists frames, b = flatten frames) \/
  (exists frames x, b = flatten frames ++ [x]).
Proof.
  assert (forall n (b : bytes), (length b < n)%nat ->
            (exists frames, b = flatten frames) \/
            (exists frames x, b = flatten frames ++ [x])) as Hn.
  { induction n as [|n IH]; intros l Hl; [lia |].
    destruct l as [|lo [|hi rest]].
    - left. exists []. reflexivity.
    - right. exists [], lo. reflexivity.
    - destruct (IH rest) as [(frames & ->) | (frames & x & ->)];
        [cbn in Hl; lia | |].
      + left. exists ((lo, hi) :: frames). reflexivity.
      + right. exists ((lo, hi) :: frames), x. reflexivity. }
  apply (Hn (S (length b))). lia.
Qed.

End PcmFacts.

Section CodecExtras.
#[local] Existing Instance CPython.lib.
Import Pcm.

(** X19.  Decoding mu-law always succeeds and gives two bytes for each
    byte, and encoding that result gives each byte back requantised.
    Encoding any buffer gives one byte for each two bytes, and fails
    exactly when the length is odd. *)
Theorem mulaw_codec (b pcm : bytes) :
  (exists p,
     ulaw_to_pcm b = Some p /\
     length p = (2 * length b)%nat /\
     pcm_to_ulaw p = Some (map requantise b)) /\
  match pcm_to_ulaw pcm with
  | Some u => length pcm = (2 * length u)%nat
  | None => Nat.odd (length pcm) = true
  end.
Proof.
  split.
  - exists (flat_map Resampled.frame b). split; [reflexivity |]. split.
    + induction b as [|u b IH]; [reflexivity |].
      cbn [flat_map]. rewrite length_app, IH.
      unfold Resampled.frame, CPython.SETSAMPLE32, CPython.SETINT16.
      cbn [length]. lia.
    + apply CodecFacts.lin2ulaw_frames.
  - unfold pcm_to_ulaw. cbn [lin2ulaw CPython.lib].
    destruct (PcmFacts.frames_or_odd pcm) as [(frames & ->) | (frames & x & ->)].
    + induction frames as [|[lo hi] frames IH]; [reflexivity |].
      cbn [flatten flat_map fst snd app CPython.lin2ulaw].
      fold (flatten frames).
      destruct (CPython.lin2ulaw (flatten frames)) as [u|];
        cbn [fmap option_fmap option_map length] in *.
      * lia.
      * rewrite Nat.odd_succ, <- Nat.negb_odd, Nat.odd_succ, <- Nat.negb_odd,
          IH. reflexivity.
    + induction frames as [|[lo hi] frames IH]; [reflexivity |].
      cbn [flatten flat_map fst snd app CPython.lin2ulaw].
      fold (flatten frames).
      destruct (CPython.lin2ulaw (flatten frames ++ [x])) as [u|];
        cbn [fmap option_fmap option_map length] in *.
      * lia.
      * rewrite Nat.odd_succ, <- Nat.negb_odd, Nat.odd_succ, <- Nat.negb_odd,
          IH. reflexivity.
Qed.

(** X20.  Resampling from 48000 to 8000 keeps the first frame and every
    sixth frame after it, unchanged, and drops the others; a buffer with
    a byte left over after its frames is refused. *)
Theorem downsample_decimates (frames : list frame) (x : byte) :
  resample (flatten frames) 48000 8000 = Some (flatten (decimate 0 frames)) /\
  resample (flatten frames ++ [x]) 48000 8000 = None.
Proof.
  unfold resample. cbn [ratecv CPython.lib]. unfold CPython.ratecv.
  change (Z.gcd 48000 8000) with 8000.
  change ((48000 <=? 0) || (8000 <=? 0)) with false.
  change (8000 / 8000) with 1. change (48000 / 8000) with 6.
  cbv iota zeta. split.
  - apply (PcmFacts.read_decimate frames 0). lia.
  - apply PcmFacts.read_odd.
Qed.

(** X21.  Resampling [n] frames from 8000 to 48000 gives [6 n - 5]
    frames (none for the empty buffer), and resampling the result from
    48000 to 8000 gives the original buffer back, byte for byte; a buffer
    with a byte left over after its frames is refused. *)
Theorem upsample_then_downsample (frames : list frame) (x : byte) :
  resample (flatten frames) 8000 48000 = Some (upsampled frames) /\
  length (upsampled frames) = (2 * (6 * length frames - 5))%nat /\
  resample (upsampled frames) 48000 8000 = Some (flatten frames) /\
  resample (flatten frames ++ [x]) 8000 48000 = None.
Proof.
  unfold resample. cbn [ratecv CPython.lib]. unfold CPython.ratecv.
  change (Z.gcd 48000 8000) with 8000.
  change (Z.gcd 8000 48000) with 8000.
  change ((48000 <=? 0) || (8000 <=? 0)) with false.
  change ((8000 <=? 0) || (48000 <=? 0)) with false.
  change (8000 / 8000) with 1. change (48000 / 8000) with 6.
  cbv iota zeta. change (- (6)) with (-6). change (- (1)) with (-1).
  repeat split.
  - destruct frames as [|[lo hi] frames]; [reflexivity |].
    cbn [flatten flat_map fst snd app upsampled].
    rewrite PcmFacts.read_frame. fold (flatten frames).
    change (Z.to_nat ((-6 + 6) / 1) + 1)%nat with 1%nat.
    change (-6 + 6) with 0.
    rewrite CodecFacts.write_step by lia. rewrite CodecFacts.write_stop by lia.
    cbv beta iota zeta. rewrite CodecFacts.interp_last by lia.
    change (0 - 1) with (-1).
    rewrite PcmFacts.read_interpolated, PcmFacts.set_get, app_nil_r.
    reflexivity.
  - destruct frames as [|f frames]; [reflexivity |].
    cbn [upsampled]. rewrite length_app, PcmFacts.length_interpolated.
    cbn [length]. lia.
  - destruct frames as [|[lo hi] frames]; [reflexivity |].
    cbn [upsampled fst snd app]. rewrite PcmFacts.read_frame.
    change (Z.to_nat ((-1 + 1) / 6) + 1)%nat with 1%nat.
    change (-1 + 1) with 0.
    rewrite CodecFacts.write_step by lia. rewrite CodecFacts.write_stop by lia.
    cbv beta iota zeta. rewrite CodecFacts.interp_last by lia.
    change (0 - 6) with (-6).
    rewrite PcmFacts.read_interpolated_back, PcmFacts.set_get, app_nil_r.
    reflexivity.
  - apply PcmFacts.read_odd.
Qed.

End CodecExtras.

(** ** The hypotheses hold on the executable library *)

Section ExtraWitnesses.
#[local] Existing Instance CPython.lib.
Import Wire Wire2.

Lemma receive_task_stopped_with_run_witness :
  looping (run "cfg" (call ended)) = false /\
  match connect (call ended) with
  | ConnectOk true =>
      hume_task (run "cfg" (call ended)) = TaskCancelled \/
      hume_task (run "cfg" (call ended)) = TaskFinished
  | _ => hume_task (run "cfg" (call ended)) = NotCreated
  end /\
  hume_step (run "cfg" (call ended)) (HuMessage audio_output true)
  = run "cfg" (call ended).
Proof.
  split; [reflexivity |].
  apply (receive_task_stopped_with_run "cfg" (call ended)
           (HuMessage audio_output true)).
  reflexivity.
Defined.

Lemma stop_ends_session_witness :
  (state mid_call = Looping /\
   json_loads stop = Some stop_message /\
   is_stop stop_message = true) /\
  step mid_call (FromTwilio (TwText stop true))
  = {| bridge := set_running false (bridge mid_call);
       hume_task := cancelled (hume_task mid_call);
       state := Returned;
       trace := trace mid_call
                ++ Log INFO (CallEnded (call_sid (bridge mid_call)))
                   :: closing (bridge mid_call) |}.
Proof.
  split; [repeat split |].
  apply (stop_ends_session mid_call stop stop_message true); reflexivity.
Defined.

Lemma telephony_failure_ends_session_witness :
  (state mid_call = Looping /\
   json_loads array = Some (JArr []) /\ is_dict (JArr []) = false) /\
  step mid_call (FromTwilio (TwText array true))
  = {| bridge := bridge mid_call;
       hume_task := cancelled (hume_task mid_call);
       state := Returned;
       trace := trace mid_call
                ++ Log ERROR LoopError :: closing (bridge mid_call) |}.
Proof.
  split; [repeat split |].
  apply (telephony_failure_ends_session mid_call (TwText array true));
    [reflexivity |].
  right. exists array, true, (JArr []). repeat split.
Defined.

Lemma hume_loop_end_keeps_session_witness :
  (state mid_call = Looping /\ hume_task mid_call = TaskRunning) /\
  step mid_call (FromHume HuClosedError) = ai_closed /\
  step ai_closed (FromHume (HuMessage audio_output true)) = ai_closed.
Proof.
  split; [repeat split |].
  apply (hume_loop_end_keeps_session mid_call HuClosedError
           (HuMessage audio_output true) [Log INFO HumeConnectionClosed]);
    [reflexivity | reflexivity |].
  right. left. split; reflexivity.
Defined.

Lemma informational_messages_send_nothing_witness :
  is_audio_output error_message = false /\
  post (handle_hume_message error_message true in_call) = in_call /\
  wire (emitted (handle_hume_message error_message true in_call)) = [].
Proof.
  split; [reflexivity |].
  apply (informational_messages_send_nothing error_message true in_call).
  reflexivity.
Defined.

Lemma plain_events_only_log_witness :
  (is_dict error_message = true /\
   is_audio_output error_message = false /\
   py_eq_str (field error_message "type") "user_message" = false /\
   py_eq_str (field error_message "type") "assistant_message" = false) /\
  handle_hume_message error_message true in_call
  = Res (inr tt) in_call
        (if py_eq_str (field error_message "type") "user_interruption"
         then [Log INFO UserInterrupted]
         else if py_eq_str (field error_message "type") "error"
         then [Log ERROR (HumeError (field error_message "message")
                                    (field error_message "code"))]
         else []).
Proof.
  split; [repeat split |].
  apply (plain_events_only_log error_message true in_call); reflexivity.
Defined.

Lemma transcript_message_witness :
  py_eq_str (field user_message "type") "user_message" = true /\
  handle_hume_message user_message true in_call
  = if is_dict (field_or_empty user_message "message")
    then Res (inr tt) in_call
           [Log INFO
              ((if py_eq_str (field user_message "type") "user_message"
                then UserSaid else SarahSaid)
                 (field (field_or_empty user_message "message") "content"))]
    else Res (inl AttributeError) in_call [].
Proof.
  split; [reflexivity |].
  apply (transcript_message user_message true in_call). left. reflexivity.
Defined.

Lemma unknown_telephony_event_ignored_witness :
  (is_dict mark_message = true /\
   is_start mark_message = false /\
   is_media mark_message = false /\
   is_stop mark_message = false) /\
  handle_twilio_message mark_message true in_call = Res (inr tt) in_call [].
Proof.
  split; [repeat split |].
  apply (unknown_telephony_event_ignored mark_message true in_call);
    reflexivity.
Defined.

Lemma start_event_witness :
  is_start start_message = true /\
  handle_twilio_message start_message true ready
  = if is_dict (field_or_empty start_message "start")
    then Res (inr tt)
           (set_call_sid
              (field (field_or_empty start_message "start") "callSid")
              (set_stream_sid (field start_message "streamSid") ready))
           [Log INFO
              (CallStarted
                 (field (field_or_empty start_message "start") "callSid"))]
    else Res (inl AttributeError)
           (set_stream_sid (field start_message "streamSid") ready) [].
Proof.
  split; [reflexivity |].
  apply (start_event start_message true ready). reflexivity.
Defined.

Lemma media_forwarded_witness :
  (is_media media_message = true /\
   is_dict (field_or_empty media_message "media") = true /\
   truthy (field (field_or_empty media_message "media") "payload") = true /\
   to_hume_data (field (field_or_empty media_message "media") "payload")
   = Some "hIKEgoSChIKEgoSChIKEgoSChIKEgoSChII=" /\
   hume_ws ready = true) /\
  handle_twilio_message media_message true ready
  = Res (inr tt) ready
        [HumeSend (audio_message "hIKEgoSChIKEgoSChIKEgoSChIKEgoSChII=")].
Proof.
  split; [repeat split |].
  apply (media_forwarded media_message
           "hIKEgoSChIKEgoSChIKEgoSChIKEgoSChII=" ready); reflexivity.
Defined.

Lemma send_failure_asymmetry_witness :
  (is_audio_output audio_output_message = true /\
   truthy (field audio_output_message "data") && truthy (stream_sid in_call)
   = true /\
   to_twilio_payload (field audio_output_message "data") = Some "/w==" /\
   is_media media_message = true /\
   is_dict (field_or_empty media_message "media") = true /\
   truthy (field (field_or_empty media_message "media") "payload") = true /\
   to_hume_data (field (field_or_empty media_message "media") "payload")
   = Some "hIKEgoSChIKEgoSChIKEgoSChIKEgoSChII=" /\
   hume_ws in_call = true) /\
  handle_hume_message audio_output_message false in_call
  = Res (inr tt) in_call [Log ERROR AudioConversionError] /\
  handle_twilio_message media_message false in_call
  = Res (inl ConnectionClosed) in_call [].
Proof.
  split; [repeat split |].
  apply (send_failure_asymmetry audio_output_message media_message "/w=="
           "hIKEgoSChIKEgoSChIKEgoSChIKEgoSChII=" in_call); reflexivity.
Defined.

Lemma audio_output_forwarded_witness :
  (is_audio_output audio_output_message = true /\
   to_twilio_payload (field audio_output_message "data") = Some "/w==") /\
  handle_hume_message audio_output_message true in_call
  = Res (inr tt) in_call
        (if truthy (field audio_output_message "data")
            && truthy (stream_sid in_call)
         then [TwilioSend
                 (JObj [("event", JStr "media");
                        ("streamSid", stream_sid in_call);
                        ("media", JObj [("payload", JStr "/w==")])])]
         else []).
Proof.
  split; [repeat split |].
  apply (audio_output_forwarded audio_output_message "/w==" in_call);
    reflexivity.
Defined.

Lemma media_without_payload_witness :
  (is_media bare_media_message = true /\
   truthy (field (field_or_empty bare_media_message "media") "payload")
     && hume_ws ready = false) /\
  handle_twilio_message bare_media_message true ready
  = if is_dict (field_or_empty bare_media_message "media")
    then Res (inr tt) ready []
    else Res (inl AttributeError) ready [].
Proof.
  split; [repeat split |].
  apply (media_without_payload bare_media_message true ready);
    reflexivity.
Defined.

End ExtraWitnesses.
